(** * Streaming question-answering pipeline of [app.py]

    A shallow embedding of the job pipeline served by the [/ask] route:
    the line-buffering output capture ([SseLogStreamWrapper]), the worker
    ([rag_worker]), the polling loop of [generate_response_stream], the
    request gate of [ask_question], and the image-upload endpoint
    ([upload_image] with [describe_medical_image]).

    Python text is a sequence of Unicode code points; dictionaries keyed by
    fixed names are finite maps; the loop over the buffer is a well-founded
    recursion on the buffer's length. *)

From Stdlib Require Import ZArith NArith Lia Ascii String.
From Equations Require Import Equations.
From stdpp Require Import gmap strings list.

Local Open Scope N_scope.

(** ** Python text *)

(** A [str] is a list of code points. *)
Definition pystr := list N.

(** ASCII literal of the source, as code points. *)
Definition lit (s : string) : pystr :=
  List.map N_of_ascii (list_ascii_of_string s).

Arguments lit : simpl never.

(** The line terminator ['\n']. *)
Definition NL : N := 10.

(** Code points that [str.strip()] removes: the ASCII table of CPython
    (0x09-0x0D, 0x1C-0x1F, 0x20) and the Unicode white-space property. *)
Definition is_space (c : N) : bool :=
  ((9 <=? c) && (c <=? 13)) || ((28 <=? c) && (c <=? 32))
  || (c =? 133) || (c =? 160) || (c =? 5760)
  || ((8192 <=? c) && (c <=? 8202))
  || (c =? 8232) || (c =? 8233) || (c =? 8239) || (c =? 8287) || (c =? 12288).

Fixpoint lstrip (s : pystr) : pystr :=
  match s with
  | [] => []
  | c :: s' => if is_space c then lstrip s' else s
  end.

Definition rstrip (s : pystr) : pystr := rev (lstrip (rev s)).

(** [s.strip()] *)
Definition strip (s : pystr) : pystr := rstrip (lstrip s).

(** Truth value of a [str]: non-empty. *)
Definition truthy (s : pystr) : bool :=
  match s with [] => false | _ => true end.

(** [s.index(c)]: position of the first [c]; [None] stands for the
    [ValueError] raised when there is none. *)
Fixpoint index (c : N) (s : pystr) : option nat :=
  match s with
  | [] => None
  | d :: s' => if d =? c then Some 0%nat else option_map S (index c s')
  end.

(** Length of the UTF-8 encoding of one code point; a lone surrogate has
    none ([s.encode()] raises [UnicodeEncodeError]). *)
Definition utf8_len (c : N) : option N :=
  if c <? 128 then Some 1
  else if c <? 2048 then Some 2
  else if (55296 <=? c) && (c <=? 57343) then None
  else if c <? 65536 then Some 3
  else Some 4.

(** [len(s.encode())] *)
Fixpoint encoded_len (s : pystr) : option N :=
  match s with
  | [] => Some 0
  | c :: s' =>
      match utf8_len c, encoded_len s' with
      | Some n, Some m => Some (n + m)
      | _, _ => None
      end
  end.

(** A value together with the equation that names it, for the loop below. *)
Definition inspect {A : Type} (x : A) : {y : A | x = y} := exist _ x eq_refl.

(** ** Events *)

(** The ['type'] entry of a queued message. *)
Inductive msg_type := log_html | answer | error | finished.

(** A queued message: the dictionary [{'type': t, 'content': c}]; the
    [finished] message has no ['content'] key. *)
Record message := Msg { type : msg_type; content : option pystr }.

Definition msg_type_eqb (a b : msg_type) : bool :=
  match a, b with
  | log_html, log_html | answer, answer | error, error
  | finished, finished => true
  | _, _ => false
  end.

Definition is_finished (m : message) : bool := msg_type_eqb (type m) finished.

(** The ANSI-to-HTML converter held by every capture
    ([Ansi2HTMLConverter.convert(text, full=False)]), an external library,
    taken as a function from text to text. *)
Class Ansi2HTMLConverter := convert : pystr -> pystr.

(** ** The output capture: [SseLogStreamWrapper] *)

(** Fields [self.queue] (the job's shared [message_queue], oldest message
    first) and [self.buffer]. *)
Record SseLogStreamWrapper := Wrapper { queue : list message; buffer : pystr }.

(** [queue.put(m)] *)
Definition put (m : message) (w : SseLogStreamWrapper) : SseLogStreamWrapper :=
  {| queue := queue w ++ [m]; buffer := buffer w |}.

Section Capture.
Context `{Ansi2HTMLConverter}.

(** [{'type': 'log_html', 'content': f"<div class='log-item'>{html_line}</div>"}]
    for [html_line = convert(text.strip())]. *)
Definition log_item (text : pystr) : message :=
  Msg log_html
      (Some (lit "<div class='log-item'>" ++ convert (strip text) ++ lit "</div>")).

(** One turn of the [while True] loop of [write] once a newline was found
    at [i]: cut the line off the buffer, emit it unless it is blank. *)
Definition take_line (i : nat) (w : SseLogStreamWrapper) : SseLogStreamWrapper :=
  let line_to_process := take (S i) (buffer w) in
  let w' := {| queue := queue w; buffer := drop (S i) (buffer w) |} in
  if truthy (strip line_to_process) then put (log_item line_to_process) w'
  else w'.

(** The [while True] loop of [write]: it runs until [index] finds no
    newline; every turn shortens the buffer. *)
Equations? drain (w : SseLogStreamWrapper) : SseLogStreamWrapper
  by wf (length (buffer w)) lt :=
  drain w with inspect (index NL (buffer w)) := {
    | exist _ None _ => w
    | exist _ (Some i) Hi => drain (take_line i w) }.
Proof.
  unfold take_line.
  assert (Hlen : (length (drop (S i) (buffer w)) < length (buffer w))%nat).
  { rewrite length_drop.
    assert (i < length (buffer w))%nat; [| lia].
    clear drain. revert i Hi. induction (buffer w) as [|d b IH]; intros i Hi.
    - discriminate.
    - simpl in Hi. destruct (d =? NL).
      + injection Hi as <-. simpl. lia.
      + destruct (index NL b) as [j|] eqn:Hj; [| discriminate].
        injection Hi as <-. simpl. specialize (IH j eq_refl). lia. }
  destruct (truthy _); simpl; exact Hlen.
Defined.

(** [write(s)] for a [str] argument (the method first turns any other
    argument into a [str]).  The result is the wrapper after the call and
    the returned byte count, [None] when [s.encode()] raises. *)
Definition write (s : pystr) (w : SseLogStreamWrapper)
  : SseLogStreamWrapper * option N :=
  (drain {| queue := queue w; buffer := buffer w ++ s |}, encoded_len s).

(** [flush()] *)
Definition flush (w : SseLogStreamWrapper) : SseLogStreamWrapper :=
  if truthy (strip (buffer w)) then
    {| queue := queue w ++ [log_item (buffer w)]; buffer := [] |}
  else w.

(** A sequence of [write] calls. *)
Definition writes (ss : list pystr) (w : SseLogStreamWrapper)
  : SseLogStreamWrapper :=
  fold_left (fun w s => fst (write s w)) ss w.

End Capture.

(** [SseLogStreamWrapper(q)] *)
Definition new_wrapper (q : list message) : SseLogStreamWrapper :=
  {| queue := q; buffer := [] |}.

(** ** Exceptions *)

(** The classes the handlers of the source tell apart: an exception that is
    not an instance of [Exception] ([SystemExit], [KeyboardInterrupt],
    [GeneratorExit]), [requests.exceptions.Timeout],
    [requests.exceptions.RequestException], and every other [Exception]. *)
Inductive exn_class := BaseOnly | Timeout | RequestException | OtherException.

(** A raised exception [e]; [str_e] is [str(e)]. *)
Record exn := Exn { cls : exn_class; str_e : pystr }.

(** [isinstance(e, Exception)] *)
Definition is_Exception (e : exn) : bool :=
  match cls e with BaseOnly => false | _ => true end.

(** A call that returns a value or raises. *)
Inductive outcome (A : Type) := raises (e : exn) | returns (a : A).
Arguments raises {A} e.
Arguments returns {A} a.

(** Sequencing: an exception raised by the first call skips the rest. *)
#[global] Instance outcome_bind : MBind outcome := fun A B k x =>
  match x with raises e => raises e | returns a => k a end.

(** ** The engine and its shared console *)

(** A file object bound to the console: some other stream, or the capture
    of the running job. *)
Inductive sink := stream (n : N) | worker_sse_wrapper.

(** Value of [q_a.console.file]: [None] or a file object. *)
Inductive pyfile := PyNone | File (f : sink).

(** [q_a.console]; [file = None] when the object has no attribute
    ['file']. *)
Record Console := { file : option pyfile }.

(** A call the engine makes on [q_a.console.file] while the capture is
    bound to it. *)
Inductive sink_call := sink_write (s : pystr) | sink_flush.

(** What [Neo4jRAGSystem(...)] followed by [answer_question(question)] does
    in one job, as the worker sees it: progress output, then the answer
    returned or an exception raised (by the constructor or the call). *)
Record engine := { output : list sink_call; result : outcome pystr }.

(** ** The worker: [rag_worker] *)

(** State shared by the worker and the request handler: the capture with
    the job's queue, [finished_signal], and the module attribute
    [q_a.console] ([None]: the module has no such attribute). *)
Record world := World {
  sse : SseLogStreamWrapper;
  finish_event : bool;
  q_a_console : option Console }.

(** The atomic effects of the worker thread, in program order. *)
Inductive effect :=
| call_write (s : pystr)      (* worker_sse_wrapper.write(s), from the engine *)
| call_flush                  (* worker_sse_wrapper.flush() *)
| q_put (m : message)         (* q.put(m) *)
| set_file (f : pyfile)       (* q_a.console.file = f *)
| finish_set.                 (* finish_event.set() *)

Definition call_of (c : sink_call) : effect :=
  match c with sink_write s => call_write s | sink_flush => call_flush end.

Section Worker.
Context `{Ansi2HTMLConverter}.

Definition exec (w : world) (e : effect) : world :=
  match e with
  | call_write s => World (fst (write s (sse w))) (finish_event w) (q_a_console w)
  | call_flush => World (flush (sse w)) (finish_event w) (q_a_console w)
  | q_put m => World (put m (sse w)) (finish_event w) (q_a_console w)
  | set_file f => World (sse w) (finish_event w) (Some {| file := Some f |})
  | finish_set => World (sse w) true (q_a_console w)
  end.

Definition run (es : list effect) (w : world) : world := fold_left exec es w.

End Worker.

Definition finished_msg : message := Msg finished None.

(** The value saved in [original_q_a_console_file] by the first [if]. *)
Definition saved_file (con : option Console) : pyfile :=
  match con with
  | Some {| file := Some f |} => f
  | _ => PyNone
  end.

(** The [finally] block. *)
Definition finally_block (con : option Console) : list effect :=
  match saved_file con, con with
  | File f, Some _ => [set_file (File f)]
  | _, _ => []
  end ++ [finish_set; q_put finished_msg].

(** [rag_worker(q, req_session, question, multi_hop, budget, finish_event)]
    run against the console [con] found at entry and the engine behaviour
    [eng]: the effects it performs, and the exception that leaves it
    ([None] when the function returns). *)
Definition rag_worker (con : option Console) (eng : engine)
  : list effect * option exn :=
  match con with
  | None =>
      ([q_put (Msg error (Some (lit "Internal error: q_a.console not found.")));
        finish_set] ++ finally_block con, None)
  | Some _ =>
      let body := set_file (File worker_sse_wrapper) :: List.map call_of (output eng) in
      match result eng with
      | returns final_answer =>
          (body ++ [call_flush; q_put (Msg answer (Some final_answer))]
                ++ finally_block con, None)
      | raises e =>
          if is_Exception e then
            (body ++ [call_flush;
                      q_put (Msg error (Some (lit "An error occurred: " ++ str_e e)))]
                  ++ finally_block con, None)
          else (body ++ finally_block con, Some e)
      end
  end.

(** The world in which a job starts: a fresh queue and capture, the signal
    clear. *)
Definition start (con : option Console) : world :=
  World (new_wrapper []) false con.

(** ** The request side: the loop of [generate_response_stream] *)

(** [json.dumps(msg)]; [None] when the message cannot be serialised. *)
Class JsonEncoder := dumps : message -> option pystr.

(** Where the generator stands: at the [while] test, inside
    [message_queue.get(timeout=0.1)], suspended at [yield] after handing out
    the frame of [m], or finished. *)
Inductive gen_state := at_while | at_get | at_yield (m : message) | closed.

(** The generator: its control point, the messages whose frames it has
    yielded, and the frames themselves, oldest first. *)
Record dispatcher := Dispatcher {
  pc : gen_state;
  sent : list message;
  wire : list pystr }.

(** One job in flight: the shared state, the effects the worker thread has
    still to perform, and the generator. *)
Record system := System {
  shared : world;
  worker : list effect;
  gen : dispatcher }.

(** What happens next: the worker thread performs one effect, the generator
    runs to its next control point, or the client goes away (the server
    closes the generator, which raises [GeneratorExit] at the [yield]). *)
Inductive choice := run_worker | run_generator | client_closes.

(** [f"data: {json}\n\n"] *)
Definition frame (json : pystr) : pystr := lit "data: " ++ json ++ [NL; NL].

Definition pop (w : world) (q' : list message) : world :=
  World {| queue := q'; buffer := buffer (sse w) |} (finish_event w) (q_a_console w).

Section Dispatch.
Context `{Ansi2HTMLConverter} `{JsonEncoder}.

Definition gen_step (w : world) (d : dispatcher) : world * dispatcher :=
  match pc d with
  | at_while =>
      if negb (finish_event w) || negb (bool_decide (queue (sse w) = []))
      then (w, Dispatcher at_get (sent d) (wire d))
      else (w, Dispatcher closed (sent d) (wire d))
  | at_get =>
      match queue (sse w) with
      | [] => (w, Dispatcher at_while (sent d) (wire d))
      | msg :: q' =>
          match dumps msg with
          | Some j =>
              (pop w q', Dispatcher (at_yield msg) (sent d ++ [msg]) (wire d ++ [frame j]))
          | None => (pop w q', Dispatcher closed (sent d) (wire d))
          end
      end
  | at_yield msg =>
      if is_finished msg then (w, Dispatcher closed (sent d) (wire d))
      else (w, Dispatcher at_while (sent d) (wire d))
  | closed => (w, d)
  end.

Definition step (s : system) (c : choice) : system :=
  match c with
  | run_worker =>
      match worker s with
      | [] => s
      | e :: es => System (exec (shared s) e) es (gen s)
      end
  | run_generator =>
      let (w, d) := gen_step (shared s) (gen s) in System w (worker s) d
  | client_closes =>
      match pc (gen s) with
      | at_yield _ =>
          System (shared s) (worker s) (Dispatcher closed (sent (gen s)) (wire (gen s)))
      | _ => s
      end
  end.

Definition schedule (cs : list choice) (s : system) : system := fold_left step cs s.

End Dispatch.

(** [generate_response_stream()] at its first [next()]: the queue and the
    signal are fresh, the worker thread is started with all its effects
    ahead of it, the generator reaches the [while] test. *)
Definition generate_response_stream (con : option Console) (eng : engine) : system :=
  System (start con) (fst (rag_worker con eng)) (Dispatcher at_while [] []).

(** ** Values exchanged with the clients *)

(** A JSON value as Python holds it after parsing; an object keeps its
    keys in order of insertion. *)
#[local] Unset Elimination Schemes.
Inductive json :=
| JNull
| JBool (b : bool)
| JNum (z : Z)
| JStr (s : pystr)
| JArr (l : list json)
| JObj (kv : list (pystr * json)).
#[local] Set Elimination Schemes.

(** Truth value of a parsed value ([if v], [not v]). *)
Definition py_truth (v : json) : bool :=
  match v with
  | JNull => false
  | JBool b => b
  | JNum z => negb (z =? 0)%Z
  | JStr s => truthy s
  | JArr l => match l with [] => false | _ => true end
  | JObj kv => match kv with [] => false | _ => true end
  end.

(** The answer of a route: a JSON body with a status, or the event stream
    built from [generate_response_stream] for the job's parameters. *)
Record job := Job {
  question_text : json;
  enable_multi_hop : json;
  search_budget : json }.

Inductive response :=
| reply (status : Z) (body : json)
| event_stream (j : job).

Definition error_body (message : pystr) : json := JObj [(lit "error", JStr message)].

(** The guard shared by the routes:
    ["neo4j_config" in session and session.get("neo4j_connected")]. *)
Definition authenticated (session : gmap pystr json) : bool :=
  bool_decide (is_Some (session !! lit "neo4j_config"))
  && py_truth (default JNull (session !! lit "neo4j_connected")).

(** The worker thread is created inside the stream's generator, so only a
    streamed answer starts one. *)
Definition starts_worker (r : response) : bool :=
  match r with event_stream _ => true | reply _ _ => false end.

(** A status of the 4xx family. *)
Definition client_error (r : response) : bool :=
  match r with
  | reply st _ => (400 <=? st)%Z && (st <? 500)%Z
  | event_stream _ => false
  end.

(** ** The image description service: [describe_medical_image] *)

(** The errors the interpreter raises on ill-shaped values. *)
Inductive builtin_error := TypeError | KeyError | IndexError | AttributeError.

(** Texts produced by the interpreter: the message of a built-in error
    raised on a value, and [str(v)]. *)
Class Interpreter := {
  error_text : builtin_error -> json -> pystr;
  py_str : json -> pystr }.

(** [分割后图像不存在] (the segmented image does not exist) *)
Definition msg_no_segmented_image : pystr :=
  [20998; 21106; 21518; 22270; 20687; 19981; 23384; 22312].

(** [分割后图像编码失败] (encoding the segmented image failed) *)
Definition msg_encoding_failed : pystr :=
  [20998; 21106; 21518; 22270; 20687; 32534; 30721; 22833; 36133].

(** [响应格式异常，无法提取描述内容] (unexpected response format) *)
Definition msg_bad_format : pystr :=
  [21709; 24212; 26684; 24335; 24322; 24120; 65292; 26080; 27861; 25552;
   21462; 25551; 36848; 20869; 23481].

(** [请求失败: ] (prefix: request failed) *)
Definition msg_request_failed : pystr :=
  [35831; 27714; 22833; 36133; 58; 32].

(** [请求超时，请稍后重试] (request timed out) *)
Definition msg_timeout : pystr :=
  [35831; 27714; 36229; 26102; 65292; 35831; 31245; 21518; 37325; 35797].

(** [网络请求异常: ] (prefix: network request error) *)
Definition msg_network_error : pystr :=
  [32593; 32476; 35831; 27714; 24322; 24120; 58; 32].

(** [图像描述生成失败: ] (prefix: generating the description failed) *)
Definition msg_description_failed : pystr :=
  [22270; 20687; 25551; 36848; 29983; 25104; 22833; 36133; 58; 32].

(** [图像描述生成失败，但图像分割已完成。] (fallback used by upload_image) *)
Definition msg_fallback : pystr :=
  [22270; 20687; 25551; 36848; 29983; 25104; 22833; 36133; 65292; 20294;
   22270; 20687; 20998; 21106; 24050; 23436; 25104; 12290].

Fixpoint is_prefix (p s : pystr) : bool :=
  match p, s with
  | [], _ => true
  | _ :: _, [] => false
  | a :: p', b :: s' => (a =? b) && is_prefix p' s'
  end.

(** [p in s] for two [str]. *)
Fixpoint substring (p s : pystr) : bool :=
  is_prefix p s || match s with [] => false | _ :: s' => substring p s' end.

(** [d.get(key)] on the items of a dictionary. *)
Fixpoint assoc (key : pystr) (kv : list (pystr * json)) : option json :=
  match kv with
  | [] => None
  | (k, v) :: kv' => if bool_decide (k = key) then Some v else assoc key kv'
  end.

(** The reply of [requests.post]. *)
Record http_reply := {
  status_code : Z;
  text : pystr;
  json_body : outcome json }.       (* response.json() *)

(** What the description service meets for one image. *)
Record vision_env := {
  path_exists : bool;               (* os.path.exists(segmented_image_path) *)
  base64_image : option pystr;      (* encode_image_to_base64: None on failure *)
  post : outcome http_reply }.      (* gen_sign_headers, then requests.post *)

Section Description.
Context `{Interpreter}.

Definition fail {A} (k : builtin_error) (v : json) : outcome A :=
  raises (Exn OtherException (error_text k v)).

(** [key in v] *)
Definition py_in (key : pystr) (v : json) : outcome bool :=
  match v with
  | JObj kv => returns (bool_decide (is_Some (assoc key kv)))
  | JArr l =>
      returns (existsb (fun x => match x with
                                 | JStr s => bool_decide (s = key)
                                 | _ => false
                                 end) l)
  | JStr s => returns (substring key s)
  | _ => fail TypeError v
  end.

(** [v[key]] for a [str] key *)
Definition py_getitem (key : pystr) (v : json) : outcome json :=
  match v with
  | JObj kv =>
      match assoc key kv with
      | Some x => returns x
      | None => fail KeyError v
      end
  | _ => fail TypeError v
  end.

(** [len(v)] *)
Definition py_len (v : json) : outcome nat :=
  match v with
  | JObj kv => returns (length kv)
  | JArr l => returns (length l)
  | JStr s => returns (length s)
  | _ => fail TypeError v
  end.

(** [v[0]] *)
Definition py_first (v : json) : outcome json :=
  match v with
  | JArr (x :: _) => returns x
  | JArr [] => fail IndexError v
  | JStr (c :: _) => returns (JStr [c])
  | JStr [] => fail IndexError v
  | JObj _ => fail KeyError v
  | _ => fail TypeError v
  end.

(** [v.get(key, dflt)] *)
Definition py_get (key : pystr) (dflt : json) (v : json) : outcome json :=
  match v with
  | JObj kv => returns (default dflt (assoc key kv))
  | _ => fail AttributeError v
  end.

(** The body of the [try] once the reply has status 200. *)
Definition extract_description (result : json) : outcome (bool * json) :=
  has_data ← py_in (lit "data") result;
  has_content ← (if has_data : bool then
                   d ← py_getitem (lit "data") result; py_in (lit "content") d
                 else returns false);
  if has_content : bool then
    d ← py_getitem (lit "data") result;
    description ← py_getitem (lit "content") d;
    returns (true, description)
  else
    has_choices ← py_in (lit "choices") result;
    nonempty ← (if has_choices : bool then
                  c ← py_getitem (lit "choices") result;
                  n ← py_len c;
                  returns (bool_decide (0 < n)%nat)
                else returns false);
    if nonempty : bool then
      c ← py_getitem (lit "choices") result;
      first ← py_first c;
      message ← py_get (lit "message") (JObj []) first;
      description ← py_get (lit "content") (JStr []) message;
      returns (true, description)
    else returns (false, JStr msg_bad_format).

(** The body of the [try] of [describe_medical_image]. *)
Definition describe_body (segmented_image_path : pystr) (env : vision_env)
  : outcome (bool * json) :=
  if negb (truthy segmented_image_path) || negb (path_exists env) then
    returns (false, JStr msg_no_segmented_image)
  else
    match base64_image env with
    | None | Some [] => returns (false, JStr msg_encoding_failed)
    | Some _ =>
        response ← post env;
        if (status_code response =? 200)%Z then
          result ← json_body response;
          extract_description result
        else
          returns (false, JStr (msg_request_failed
                                ++ py_str (JNum (status_code response))
                                ++ lit " " ++ text response))
    end.

(** [describe_medical_image(segmented_image_path)]: the three handlers
    turn every [Exception] into a reported failure. *)
Definition describe_medical_image (segmented_image_path : pystr) (env : vision_env)
  : outcome (bool * json) :=
  match describe_body segmented_image_path env with
  | returns r => returns r
  | raises e =>
      match cls e with
      | Timeout => returns (false, JStr msg_timeout)
      | RequestException => returns (false, JStr (msg_network_error ++ str_e e))
      | OtherException => returns (false, JStr (msg_description_failed ++ str_e e))
      | BaseOnly => raises e
      end
  end.

End Description.

(** ** The route [/ask]: [ask_question] *)

(** The status with which Flask answers what a view did: the status of
    the reply the view returned, 200 for the event stream, and 500 for an
    exception that left the view. *)
Definition answered_status (r : outcome response) : Z :=
  match r with
  | returns (reply st _) => st
  | returns (event_stream _) => 200
  | raises _ => 500
  end.

Section Ask.
Context `{Interpreter}.

(** [ask_question()]: [session] is the Flask session and [data] the value
    [request.json] returns, any parsed JSON value.  The three [data.get]
    calls raise [AttributeError] on a value that is not a dictionary, and
    nothing in the view catches it. *)
Definition ask_question (session : gmap pystr json) (data : json)
  : outcome response :=
  if negb (authenticated session) then
    returns (reply 403 (error_body (lit "Not connected to Neo4j. Please login.")))
  else
    question_text ← py_get (lit "question") JNull data;
    enable_multi_hop ← py_get (lit "enable_multi_hop") (JBool true) data;
    search_budget ← py_get (lit "search_budget") (JStr (lit "Deeper")) data;
    if negb (py_truth question_text) then
      returns (reply 400 (error_body (lit "No question provided.")))
    else returns (event_stream (Job question_text enable_multi_hop search_budget)).

End Ask.

(** ** The route [/upload_image]: [upload_image] *)

(** ['.'] and ['/'] *)
Definition DOT : N := 46.
Definition SLASH : N := 47.

(** The text after the last [sep] (all of [s] when there is none). *)
Definition after_last (sep : N) (s : pystr) : pystr :=
  (fix go (s acc : pystr) : pystr :=
     match s with
     | [] => acc
     | c :: s' => if c =? sep then go s' s' else go s' acc
     end) s s.

(** [s.lower()] on the letters A-Z; no other code point lower-cases into
    one of the extensions below. *)
Definition lower (s : pystr) : pystr :=
  List.map (fun c => if (65 <=? c) && (c <=? 90) then c + 32 else c) s.

Definition allowed_extensions : list pystr :=
  [lit "png"; lit "jpg"; lit "jpeg"; lit "gif"; lit "bmp"; lit "tiff"].

(** [filename and '.' in filename and
     filename.rsplit('.', 1)[1].lower() in allowed_extensions] *)
Definition allowed_file (filename : option pystr) : bool :=
  match filename with
  | None => false
  | Some f =>
      truthy f
      && bool_decide (DOT ∈ f)
      && bool_decide (lower (after_last DOT f) ∈ allowed_extensions)
  end.

(** [os.path.basename(p)] *)
Definition basename (p : pystr) : pystr := after_last SLASH p.

(** Truth value of a path that may be [None]. *)
Definition path_given (p : option pystr) : bool :=
  match p with Some s => truthy s | None => false end.

(** What the segmentation and description services do for one upload. *)
Record image_services := {
  save_uploaded_image : outcome (option pystr);
  segment_image : outcome (option pystr * pystr * json);
  vision : vision_env }.

Section Upload.
Context `{Interpreter}.

(** The body of the [try] of [upload_image]. *)
Definition upload_body (svc : image_services) : outcome response :=
  uploaded_path ← save_uploaded_image svc;
  if negb (path_given uploaded_path) then
    returns (reply 500 (error_body (lit "Failed to save uploaded image.")))
  else
    '(segmented_path, original_path, seg_info) ← segment_image svc;
    match segmented_path with
    | None | Some [] =>
        returns (reply 500 (error_body (lit "Image segmentation failed: "
                                        ++ py_str seg_info)))
    | Some segmented =>
        '(success, description) ← describe_medical_image segmented (vision svc);
        let description :=
          if negb success then JStr msg_fallback else description in
        returns (reply 200 (JObj [
          (lit "success", JBool true);
          (lit "original_image", JStr (lit "/uploads/" ++ basename original_path));
          (lit "segmented_image", JStr (lit "/segmented/" ++ basename segmented));
          (lit "segmentation_info", seg_info);
          (lit "description", description)]))
    end.

(** [upload_image()]: [image] is [request.files.get('image')] reduced to
    its [filename] ([None]: no such part; [Some None]: a part without a
    file name). *)
Definition upload_image (session : gmap pystr json)
    (image : option (option pystr)) (svc : image_services) : outcome response :=
  if negb (authenticated session) then
    returns (reply 403 (error_body (lit "Not connected to Neo4j. Please login.")))
  else
    match image with
    | None => returns (reply 400 (error_body (lit "No image file uploaded.")))
    | Some filename =>
        if bool_decide (filename = Some []) then
          returns (reply 400 (error_body (lit "No image file selected.")))
        else if negb (allowed_file filename) then
          returns (reply 400 (error_body (lit
            "Unsupported file type. Please upload PNG, JPG, JPEG, GIF, BMP, or TIFF files.")))
        else
          match upload_body svc with
          | returns r => returns r
          | raises e =>
              if is_Exception e then
                returns (reply 500 (error_body (lit "Image segmentation error: "
                                                ++ str_e e)))
              else raises e
          end
    end.

End Upload.

(** ** The session routes: [login], [logout], [index] *)

(** What a page route answers: a redirect to the URL of an endpoint, or a
    rendered template with its context. *)
Inductive page :=
| redirect (endpoint : pystr)
| render_template (template : pystr) (context : list (pystr * json)).

(** The methods the [/login] route accepts. *)
Inductive http_method := GET | POST.

(** [os.getenv(name, fallback)] *)
Definition getenv (environ : gmap pystr pystr) (name fallback : pystr) : pystr :=
  default fallback (environ !! name).

(** The three entries of a connection configuration. *)
Definition config (uri user password : pystr) : json :=
  JObj [(lit "uri", JStr uri); (lit "user", JStr user); (lit "password", JStr password)].

(** [default_config] of [login]. *)
Definition default_uri (environ : gmap pystr pystr) : pystr :=
  getenv environ (lit "NEO4J_URI") (lit "bolt://localhost:7687").
Definition default_user (environ : gmap pystr pystr) : pystr :=
  getenv environ (lit "NEO4J_USER") (lit "neo4j").
Definition default_password (environ : gmap pystr pystr) : pystr :=
  getenv environ (lit "NEO4J_PASSWORD") (lit "123456789").
Definition default_config (environ : gmap pystr pystr) : json :=
  config (default_uri environ) (default_user environ) (default_password environ).

(** [login()]: [environ] is the process environment, [form] the posted
    form, [neo4j uri user password] the outcome of opening a graph with
    these credentials and running the probe query.  The result is the
    session after the request and the page answered. *)
Definition login (environ : gmap pystr pystr) (method : http_method)
    (form : gmap pystr pystr) (neo4j : pystr -> pystr -> pystr -> outcome unit)
    (session : gmap pystr json) : outcome (gmap pystr json * page) :=
  match method with
  | POST =>
      let uri := default (default_uri environ) (form !! lit "uri") in
      let user := default (default_user environ) (form !! lit "user") in
      let password := default (default_password environ) (form !! lit "password") in
      let session1 := <[lit "neo4j_config" := config uri user password]> session in
      match neo4j uri user password with
      | returns _ =>
          returns (<[lit "neo4j_connected" := JBool true]> session1,
                   redirect (lit "index"))
      | raises e =>
          if is_Exception e then
            returns (<[lit "neo4j_connected" := JBool false]>
                       (delete (lit "neo4j_config") session1),
                     render_template (lit "login.html")
                       [(lit "error", JStr (lit "Connection failed: " ++ str_e e));
                        (lit "defaults", default_config environ)])
          else raises e
      end
  | GET =>
      returns (session,
               render_template (lit "login.html")
                 [(lit "defaults", default_config environ)])
  end.

(** [logout()] *)
Definition logout (session : gmap pystr json) : gmap pystr json * page :=
  (<[lit "neo4j_connected" := JBool false]> (delete (lit "neo4j_config") session),
   redirect (lit "login")).

(** [index()] (the name [index] is taken by the text search above) *)
Definition index_page (session : gmap pystr json) : page :=
  match session !! lit "neo4j_config" with
  | None => redirect (lit "login")
  | Some c => render_template (lit "index.html") [(lit "neo4j_config", c)]
  end.

(** A request that can change the session. *)
Inductive session_request :=
| login_request (method : http_method) (form : gmap pystr pystr)
| logout_request.

Section Sessions.
Context (environ : gmap pystr pystr) (neo4j : pystr -> pystr -> pystr -> outcome unit).

Definition serve (session : gmap pystr json) (r : session_request)
  : outcome (gmap pystr json) :=
  match r with
  | login_request method form =>
      answer ← login environ method form neo4j session; returns (fst answer)
  | logout_request => returns (fst (logout session))
  end.

(** Requests served one after another; an exception that leaves a route
    ends the run. *)
Fixpoint serve_all (rs : list session_request) (session : gmap pystr json)
  : outcome (gmap pystr json) :=
  match rs with
  | [] => returns session
  | r :: rs' => session' ← serve session r; serve_all rs' session'
  end.

End Sessions.

(** ** The image description service, continued *)

(** 图像编码失败 (encoding the image failed) *)
Definition msg_image_encoding_failed : pystr :=
  [22270; 20687; 32534; 30721; 22833; 36133].

(** The base64 alphabet: the character of a six-bit value. *)
Definition b64_char (n : N) : N :=
  if n <? 26 then 65 + n
  else if n <? 52 then 97 + (n - 26)
  else if n <? 62 then 48 + (n - 52)
  else if n =? 62 then 43
  else 47.

(** ['='] *)
Definition PAD : N := 61.

(** [base64.b64encode(b).decode('utf-8')] for bytes [b] (values below 256). *)
Fixpoint b64encode (b : list N) : pystr :=
  match b with
  | [] => []
  | [x] => [b64_char (x / 4); b64_char ((x mod 4) * 16); PAD; PAD]
  | [x; y] =>
      [b64_char (x / 4); b64_char ((x mod 4) * 16 + y / 16);
       b64_char ((y mod 16) * 4); PAD]
  | x :: y :: z :: rest =>
      b64_char (x / 4) :: b64_char ((x mod 4) * 16 + y / 16)
      :: b64_char ((y mod 16) * 4 + z / 64) :: b64_char (z mod 64)
      :: b64encode rest
  end.

(** [encode_image_to_base64(image_path)]: [file] is what opening and
    reading the path gives, [None] when that raises; the method then prints
    the error and returns [None]. *)
Definition encode_image_to_base64 (file : option (list N)) : option pystr :=
  match file with
  | Some b_image => Some (b64encode b_image)
  | None => None
  end.

(** The environment of the description service for an image file with the
    given content. *)
Definition vision_of_file (exists_ : bool) (file : option (list N))
    (reply : outcome http_reply) : vision_env :=
  {| path_exists := exists_;
     base64_image := encode_image_to_base64 file;
     post := reply |}.

Section SingleDescription.
Context `{Interpreter}.

(** The body of the [try] of [describe_single_image]. *)
Definition describe_single_body (env : vision_env) : outcome (bool * json) :=
  match base64_image env with
  | None | Some [] => returns (false, JStr msg_image_encoding_failed)
  | Some _ =>
      response ← post env;
      if (status_code response =? 200)%Z then
        result ← json_body response;
        extract_description result
      else
        returns (false, JStr (msg_request_failed
                              ++ py_str (JNum (status_code response))
                              ++ lit " " ++ text response))
  end.

(** [describe_single_image(image_path, custom_prompt)]; the prompt only
    enters the request. *)
Definition describe_single_image (env : vision_env) : outcome (bool * json) :=
  match describe_single_body env with
  | returns r => returns r
  | raises e =>
      if is_Exception e then
        returns (false, JStr (msg_description_failed ++ str_e e))
      else raises e
  end.

End SingleDescription.

(** ** Speech recognition: [voice_asr.py] *)

(** A frame sent on the web socket: [ws.send(text)] or
    [ws.send_binary(bytes)]. *)
Inductive ws_frame := text_frame (s : json) | binary_frame (b : list N).

(** The web socket as the client sees it: the frames sent so far, how many
    more sends the connection takes before [send] raises ([None]: any
    number), the replies still to come, each already parsed by
    [json.loads] ([None]: [recv] or the parser raises; once the replies
    are used up the peer has closed and [recv] raises), and whether
    [close()] returns. *)
Record websocket := {
  outbox : list ws_frame;
  capacity : option nat;
  inbox : list (option json);
  closes : bool }.

(** [ws.send(...)] and [ws.send_binary(...)]; [None]: the call raises. *)
Definition ws_send (f : ws_frame) (ws : websocket) : option websocket :=
  match capacity ws with
  | Some O => None
  | Some (S k) =>
      Some {| outbox := outbox ws ++ [f]; capacity := Some k;
              inbox := inbox ws; closes := closes ws |}
  | None =>
      Some {| outbox := outbox ws ++ [f]; capacity := None;
              inbox := inbox ws; closes := closes ws |}
  end.

(** The [business_info] text of the start message. *)
Definition business_info : pystr :=
  [123; 34; 115; 99; 101; 110; 101; 115; 95; 112; 107; 103; 34; 58; 34; 99;
   111; 109; 46; 116; 101; 110; 99; 101; 110; 116; 46; 113; 113; 108; 105;
   118; 101; 34; 44; 32; 34; 101; 100; 105; 116; 111; 114; 95; 116; 121;
   112; 101; 34; 58; 34; 51; 34; 44; 32; 34; 112; 114; 111; 95; 105; 100;
   34; 58; 34; 50; 97; 100; 100; 99; 52; 50; 98; 55; 97; 101; 54; 56; 57;
   100; 102; 100; 102; 49; 99; 54; 51; 101; 50; 50; 48; 100; 102; 53; 50;
   97; 50; 45; 50; 48; 50; 48; 34; 125].

(** [start_data], sent as [json.dumps(start_data)]. *)
Definition start_data : json :=
  JObj [(lit "type", JStr (lit "started"));
        (lit "request_id", JStr (lit "req_id"));
        (lit "asr_info",
         JObj [(lit "front_vad_time", JNum 6000);
               (lit "end_vad_time", JNum 2000);
               (lit "audio_type", JStr (lit "pcm"));
               (lit "chinese2digital", JNum 1);
               (lit "punctuation", JNum 2)]);
        (lit "business_info", JStr business_info)].

(** The two bytes of one sample under format ['h'], in the byte order of
    the machine; [None] stands for the [struct.error] raised for a value
    outside the 16-bit range. *)
Definition pack_sample (big_endian : bool) (x : Z) : option (list N) :=
  if ((-32768 <=? x) && (x <=? 32767))%Z then
    let u := Z.to_N (x mod 65536) in
    Some (if big_endian then [u / 256; u mod 256] else [u mod 256; u / 256])
  else None.

(** [list(struct.unpack('B' * nframes, struct.pack('%dh' % nlen, *wav_data)))] *)
Fixpoint pack_samples (big_endian : bool) (wav_data : list Z) : option (list N) :=
  match wav_data with
  | [] => Some []
  | x :: rest =>
      match pack_sample big_endian x, pack_samples big_endian rest with
      | Some b, Some bs => Some (b ++ bs)
      | _, _ => None
      end
  end.

(** [sample_frames] *)
Definition sample_frames : nat := 1280.

(** The [while cur_frames < nframes] loop of [_process_audio_data]: the
    socket after the loop, and whether the loop ended without a [send]
    raising. *)
Equations? send_chunks (wav_data_c : list N) (cur_frames : nat) (ws : websocket)
  : websocket * bool by wf (length wav_data_c - cur_frames)%nat lt :=
  send_chunks wav_data_c cur_frames ws
    with inspect (cur_frames <? length wav_data_c)%nat := {
    | exist _ false _ => (ws, true)
    | exist _ true Hlt =>
        let samp_remaining := (length wav_data_c - cur_frames)%nat in
        let num_samp :=
          if (sample_frames <? samp_remaining)%nat then sample_frames
          else samp_remaining in
        let pack_data_2 := take num_samp (drop cur_frames wav_data_c) in
        if (length pack_data_2 <? 1280)%nat then (ws, true)
        else
          match ws_send (binary_frame pack_data_2) ws with
          | None => (ws, false)
          | Some ws' => send_chunks wav_data_c (cur_frames + num_samp)%nat ws'
          end }.
Proof.
  apply Nat.ltb_lt in Hlt. clear send_chunks pack_data_2.
  subst num_samp samp_remaining. unfold sample_frames.
  destruct (1280 <? length wav_data_c - cur_frames)%nat; lia.
Defined.

(** [b'--end--'] and [b'--close--'] *)
Definition end_marker : list N := lit "--end--".
Definition close_marker : list N := lit "--close--".

(** [v == s] for a [str] literal [s]. *)
Definition is_str (s : pystr) (v : json) : bool :=
  match v with JStr t => bool_decide (t = s) | _ => false end.

Section Recognition.
Context `{Interpreter}.

(** One turn of the loop of [_receive_results] on a parsed reply: the
    text to return when the loop ends here ([None]: the loop goes on). *)
Definition handle_reply (data : json) : outcome (option json) :=
  action ← py_getitem (lit "action") data;
  if is_str (lit "error") action then returns (Some (JStr []))
  else
    is_asr ← (if is_str (lit "result") action then
                ty ← py_getitem (lit "type") data; returns (is_str (lit "asr") ty)
              else returns false);
    if is_asr : bool then
      d ← py_getitem (lit "data") data;
      is_last ← py_getitem (lit "is_last") d;
      match is_last with
      | JBool true =>
          d' ← py_getitem (lit "data") data;
          txt ← py_getitem (lit "text") d';
          returns (Some txt)
      | _ => returns None
      end
    else returns None.

(** The [while True] loop of [_receive_results] over the replies to come:
    the text returned and the replies left unread. *)
Fixpoint receive_loop (replies : list (option json)) : json * list (option json) :=
  match replies with
  | [] => (JStr [], [])
  | None :: rest => (JStr [], rest)
  | Some data :: rest =>
      match handle_reply data with
      | raises _ => (JStr [], rest)
      | returns (Some txt) => (txt, rest)
      | returns None => receive_loop rest
      end
  end.

(** [_receive_results(ws)] *)
Definition _receive_results (ws : websocket) : json * websocket :=
  let (result_text, rest) := receive_loop (inbox ws) in
  (result_text, {| outbox := outbox ws; capacity := capacity ws;
            inbox := rest; closes := closes ws |}).

(** [_process_audio_data(ws, wav_data)]: the text returned and the socket
    afterwards. *)
Definition _process_audio_data (big_endian : bool) (ws : websocket)
    (wav_data : list Z) : json * websocket :=
  match ws_send (text_frame start_data) ws with
  | None => (JStr [], ws)
  | Some ws1 =>
      match pack_samples big_endian wav_data with
      | None => (JStr [], ws1)
      | Some wav_data_c =>
          match send_chunks wav_data_c 0 ws1 with
          | (ws2, false) => (JStr [], ws2)
          | (ws2, true) =>
              match ws_send (binary_frame end_marker) ws2 with
              | None => (JStr [], ws2)
              | Some ws3 =>
                  let (result_text, ws4) := _receive_results ws3 in
                  match ws_send (binary_frame close_marker) ws4 with
                  | None => (result_text, ws4)
                  | Some ws5 => (result_text, ws5)
                  end
              end
          end
      end
  end.

(** What one recognition meets: the samples [_load_and_convert_audio]
    returns ([None] when it fails), the socket
    [_create_websocket_connection] opens ([None] when it raises), and the
    byte order of the machine. *)
Record asr_env := {
  loaded : option (list Z);
  connection : option websocket;
  big_endian : bool }.

(** [recognize_audio_file(audio_file_path)] *)
Definition recognize_audio_file (env : asr_env) : json :=
  match loaded env with
  | None => JStr []
  | Some wav_data =>
      match connection env with
      | None => JStr []
      | Some ws =>
          let (result_text, ws') := _process_audio_data (big_endian env) ws wav_data in
          if closes ws' then result_text else JStr []
      end
  end.

(** [recognize_voice(audio_file_path)] *)
Definition recognize_voice (env : asr_env) : json := recognize_audio_file env.

End Recognition.

(** ** The route [/upload_voice]: [upload_voice] *)

(** 语音识别失败，请重试或检查音频文件格式。 (recognition failed) *)
Definition msg_recognition_failed : pystr :=
  [35821; 38899; 35782; 21035; 22833; 36133; 65292; 35831; 37325; 35797;
   25110; 26816; 26597; 38899; 39057; 25991; 20214; 26684; 24335; 12290].

(** 语音识别出错:  (prefix: recognition error) *)
Definition msg_recognition_error : pystr :=
  [35821; 38899; 35782; 21035; 20986; 38169; 58; 32].

(** [os.path.join(a, b)] for a relative [b]. *)
Definition path_join (a b : pystr) : pystr :=
  match last a with
  | None => b
  | Some c => if c =? SLASH then a ++ b else a ++ [SLASH] ++ b
  end.

(** A call on the file system made by the route. *)
Inductive fs_call := fs_save (path : pystr) | fs_remove (path : pystr).

(** What the route meets for one upload: the temporary directory, the
    hexadecimal text of the fresh UUID, the outcome of saving the upload,
    and the recognition. *)
Record voice_services := {
  gettempdir : outcome pystr;
  uuid_hex : pystr;
  save_audio : outcome unit;
  asr : asr_env }.

Section Voice.
Context `{Interpreter}.

(** [upload_voice()]: [audio] is [request.files.get('audio')] reduced to its
    [filename].  The result is the calls made on the file system, in
    order, and the answer. *)
Definition upload_voice (session : gmap pystr json)
    (audio : option (option pystr)) (svc : voice_services)
  : list fs_call * outcome response :=
  if negb (authenticated session) then
    ([], returns (reply 403 (error_body (lit "Not connected to Neo4j. Please login."))))
  else
    match audio with
    | None => ([], returns (reply 400 (error_body (lit "No audio file uploaded."))))
    | Some filename =>
        if bool_decide (filename = Some []) then
          ([], returns (reply 400 (error_body (lit "No audio file selected."))))
        else
          match gettempdir svc with
          | raises e =>
              if is_Exception e then
                ([], returns (reply 500 (error_body (msg_recognition_error ++ str_e e))))
              else ([], raises e)
          | returns temp_dir =>
              let unique_filename := lit "voice_" ++ uuid_hex svc ++ lit ".wav" in
              let temp_audio_path := path_join temp_dir unique_filename in
              match save_audio svc with
              | raises e =>
                  if is_Exception e then
                    ([fs_save temp_audio_path; fs_remove temp_audio_path],
                     returns (reply 500 (error_body (msg_recognition_error ++ str_e e))))
                  else ([fs_save temp_audio_path], raises e)
              | returns _ =>
                  let recognized_text := recognize_voice (asr svc) in
                  ([fs_save temp_audio_path; fs_remove temp_audio_path],
                   if py_truth recognized_text then
                     returns (reply 200 (JObj [(lit "success", JBool true);
                                               (lit "text", recognized_text)]))
                   else
                     returns (reply 400 (error_body msg_recognition_failed)))
              end
          end
    end.

End Voice.

(** * Vocabulary of the properties *)

(** ** Lines of a text, as the specification counts them *)

(** The complete lines of [s], each with its terminator, and the
    unterminated remainder. *)
Fixpoint split_lines (s : pystr) : list pystr * pystr :=
  match s with
  | [] => ([], [])
  | c :: s' =>
      let (ls, r) := split_lines s' in
      if c =? NL then ([c] :: ls, r)
      else match ls with
           | [] => ([], c :: r)
           | l :: ls' => ((c :: l) :: ls', r)
           end
  end.

Definition complete_lines (s : pystr) : list pystr := fst (split_lines s).
Definition remainder (s : pystr) : pystr := snd (split_lines s).

(** A line that [strip()] does not empty. *)
Definition non_blank (s : pystr) : bool := truthy (strip s).

(** Number of line terminators in a text. *)
Definition terminators (s : pystr) : nat :=
  length (List.filter (fun c => c =? NL) s).

(** ** Messages and schedules *)

(** The console as the engine provides it: the module has none, or it has
    a rich [Console]; reading the [file] of a rich [Console] always gives a
    file object (the stream it was given or, by default, the standard
    output), never [None], and the attribute is always there. *)
Definition file_bound (con : option Console) : Prop :=
  match con with
  | None => True
  | Some c => exists f, file c = Some (File f)
  end.

(** A progress message of the capture. *)
Definition is_log (m : message) : Prop := type m = log_html.

(** Two worlds whose captures differ only by messages already taken from
    the front of the queue. *)
Definition ahead (p : list message) (w w' : world) : Prop :=
  queue (sse w) = p ++ queue (sse w') /\ buffer (sse w) = buffer (sse w').

Definition none_finished (l : list message) : Prop :=
  Forall (fun m => is_finished m = false) l.

(** A [finished] message, if any, is the last one. *)
Definition finished_last (l : list message) : Prop :=
  forall pre m post, l = pre ++ m :: post -> is_finished m = true -> post = [].

Section Invariant.
Context `{Ansi2HTMLConverter} `{JsonEncoder}.

(** Frames on the wire stand one for one for the messages sent. *)
Definition framed (d : dispatcher) : Prop :=
  Forall2 (fun m x => exists j, dumps m = Some j /\ x = frame j) (sent d) (wire d).

Definition pc_ok (d : dispatcher) : Prop :=
  match pc d with
  | at_while | at_get => none_finished (sent d)
  | at_yield m => exists pre, sent d = pre ++ [m] /\ none_finished pre
  | closed => finished_last (sent d)
  end.

(** What holds of a job in flight whose worker produces [produced] when
    left alone: the messages sent, those dropped by a failed
    serialisation, those waiting and those still to come make up
    [produced], in this order. *)
Definition inv (produced : list message) (s : system) : Prop :=
  (exists dropped,
      sent (gen s) ++ dropped ++ queue (sse (run (worker s) (shared s))) = produced
      /\ (pc (gen s) <> closed -> dropped = []))
  /\ framed (gen s)
  /\ pc_ok (gen s).

End Invariant.

(** ** Inputs of the concrete runs *)

(** Stand-ins for the external libraries in the runs below: a converter
    that leaves text as it is, a serialiser that writes the content alone,
    an interpreter with one error text. *)
Definition plain_converter : Ansi2HTMLConverter := fun s => s.
Definition plain_encoder : JsonEncoder := fun m => Some (default [] (content m)).
Definition plain_interpreter : Interpreter :=
  {| error_text := fun _ _ => lit "error"; py_str := fun _ => lit "?" |}.

(** A console bound to some stream. *)
Definition console_bound : option Console := Some {| file := Some (File (stream 0)) |}.

(** An engine that prints two lines and answers; one that prints half a
    line and fails with an [Exception]; one that exits the interpreter. *)
Definition engine_answers : engine :=
  {| output := [sink_write (lit "step 1" ++ [NL]); sink_write (lit "step 2" ++ [NL])];
     result := returns (lit "X is ...") |}.
Definition engine_fails : engine :=
  {| output := [sink_write (lit "connecting")];
     result := raises (Exn OtherException (lit "db unreachable")) |}.
Definition engine_exits : engine :=
  {| output := []; result := raises (Exn BaseOnly (lit "exit")) |}.
Definition engine_silent : engine :=
  {| output := []; result := returns (lit "X is ...") |}.

(** A schedule in which the generator tests its loop condition between the
    worker's [finish_event.set()] and its last [put]. *)
Definition race : list choice :=
  [run_worker; run_worker; run_worker; run_worker; run_worker;
   run_generator; run_generator; run_generator; run_generator;
   run_worker].

Definition session_ok : gmap pystr json :=
  {[ lit "neo4j_config" := JObj [(lit "uri", JStr (lit "bolt://localhost:7687"))];
     lit "neo4j_connected" := JBool true ]}.

Definition body_question : json :=
  JObj [(lit "question", JStr (lit "What is X?"))].

Definition services_description_times_out : image_services :=
  {| save_uploaded_image := returns (Some (lit "static/uploads/u.png"));
     segment_image := returns (Some (lit "static/segmented/s.png"),
                               lit "static/uploads/u.png", JNull);
     vision := {| path_exists := true;
                  base64_image := Some (lit "iVBORw0KGgo=");
                  post := raises (Exn Timeout (lit "timed out")) |} |}.

(** ** Sessions *)

(** A session in which the stored configuration and the guard of the
    routes agree: the configuration is there exactly when the session is
    authenticated. *)
Definition coherent (session : gmap pystr json) : Prop :=
  is_Some (session !! lit "neo4j_config") -> authenticated session = true.

(** The answer of a guarded route to a session that is not authenticated. *)
Definition not_connected : response :=
  reply 403 (error_body (lit "Not connected to Neo4j. Please login.")).

(** ** Uploads *)

(** The uploads the route turns down before its [try]. *)
Definition turned_down (session : gmap pystr json) (image : option (option pystr))
  : Prop :=
  authenticated session = false
  \/ image = None
  \/ image = Some (Some [])
  \/ exists filename, image = Some filename /\ allowed_file filename = false.

(** ** Speech recognition *)

(** The first [k] consecutive chunks of [sample_frames] bytes of [l]. *)
Fixpoint full_chunks (k : nat) (l : list N) : list (list N) :=
  match k with
  | O => []
  | S k' => take sample_frames l :: full_chunks k' (drop sample_frames l)
  end.

(** A reply of the recogniser carrying a text, final or not, and an error
    reply. *)
Definition asr_result (is_last : bool) (txt : json) : json :=
  JObj [(lit "action", JStr (lit "result"));
        (lit "type", JStr (lit "asr"));
        (lit "data", JObj [(lit "is_last", JBool is_last); (lit "text", txt)])].

Definition asr_error (detail : json) : json :=
  JObj [(lit "action", JStr (lit "error")); (lit "detail", detail)].

(** A socket that takes every frame. *)
Definition takes_all (ws : websocket) : Prop := capacity ws = None.

(** The path of the temporary file of an upload. *)
Definition temp_audio_path (svc : voice_services) (temp_dir : pystr) : pystr :=
  path_join temp_dir (lit "voice_" ++ uuid_hex svc ++ lit ".wav").

(** ** Schedules *)

(** Number of turns a schedule gives to the worker thread. *)
Definition worker_turns (cs : list choice) : nat :=
  length (List.filter (fun c => match c with run_worker => true | _ => false end) cs).

(** ** Further inputs of the concrete runs *)

(** A database that answers the probe, and one that refuses it. *)
Definition neo4j_up : pystr -> pystr -> pystr -> outcome unit :=
  fun _ _ _ => returns tt.
Definition neo4j_down : pystr -> pystr -> pystr -> outcome unit :=
  fun _ _ _ => raises (Exn OtherException (lit "connection refused")).

(** A login form that names the server only. *)
Definition form_uri : gmap pystr pystr := {[ lit "uri" := lit "bolt://db:7687" ]}.

(** A visitor who logs in, logs out and looks at the login page. *)
Definition visit : list session_request :=
  [login_request POST form_uri; logout_request; login_request GET ∅].

(** Services whose save step fails with an [Exception]. *)
Definition services_save_fails : image_services :=
  {| save_uploaded_image := raises (Exn OtherException (lit "disk full"));
     segment_image := returns (None, [], JNull);
     vision := {| path_exists := false; base64_image := None;
                  post := raises (Exn Timeout []) |} |}.

(** A recogniser that sends one partial and one final result, and the same
    one when closing the socket fails. *)
Definition ws_hello : websocket :=
  {| outbox := []; capacity := None;
     inbox := [Some (asr_result false (JStr (lit "hel")));
               Some (asr_result true (JStr (lit "hello")))];
     closes := true |}.
Definition ws_close_fails : websocket :=
  {| outbox := []; capacity := None;
     inbox := [Some (asr_result true (JStr (lit "hello")))];
     closes := false |}.

Definition asr_close_fails : asr_env :=
  {| loaded := Some [1; -2; 3]%Z; connection := Some ws_close_fails;
     big_endian := false |}.

Definition voice_close_fails : voice_services :=
  {| gettempdir := returns (lit "/tmp");
     uuid_hex := lit "0123456789abcdef0123456789abcdef";
     save_audio := returns tt;
     asr := asr_close_fails |}.

Definition asr_hello : asr_env :=
  {| loaded := Some [1; -2; 3]%Z; connection := Some ws_hello; big_endian := false |}.

Definition voice_hello : voice_services :=
  {| gettempdir := returns (lit "/tmp");
     uuid_hex := lit "0123456789abcdef0123456789abcdef";
     save_audio := returns tt;
     asr := asr_hello |}.

(** A description reply whose first choice carries no message, and the
    environment that receives it. *)
Definition reply_empty_choice : list (pystr * json) :=
  [(lit "choices", JArr [JObj [(lit "index", JNum 0)]])].

Definition vision_empty_choice : vision_env :=
  {| path_exists := true;
     base64_image := Some (lit "iVBORw0KGgo=");
     post := returns {| status_code := 200; text := [];
                        json_body := returns (JObj reply_empty_choice) |} |}.

(** * Properties *)

(** ** Lines of a text *)

Lemma split_lines_app (t s : pystr) :
  split_lines (t ++ s)
  = (complete_lines t ++ complete_lines (remainder t ++ s),
     remainder (remainder t ++ s)).
Proof.
  unfold complete_lines, remainder.
  induction t as [|c t IH]; simpl.
  - destruct (split_lines s); reflexivity.
  - rewrite IH. destruct (split_lines t) as [lt rt]; simpl.
    destruct (c =? NL) eqn:Hc; simpl.
    + reflexivity.
    + destruct lt as [|l lt]; simpl.
      * rewrite Hc. destruct (split_lines (rt ++ s)) as [ls rs]; simpl.
        destruct ls; reflexivity.
      * reflexivity.
Qed.

Lemma complete_lines_app (t s : pystr) :
  complete_lines (t ++ s) = complete_lines t ++ complete_lines (remainder t ++ s).
Proof. unfold complete_lines at 1. rewrite split_lines_app. reflexivity. Qed.

Lemma remainder_app (t s : pystr) :
  remainder (t ++ s) = remainder (remainder t ++ s).
Proof. unfold remainder at 1. rewrite split_lines_app. reflexivity. Qed.

Lemma split_lines_no_newline (b : pystr) :
  index NL b = None -> split_lines b = ([], b).
Proof.
  induction b as [|c b IH]; simpl; [reflexivity |].
  destruct (c =? NL); [discriminate |].
  destruct (index NL b); [discriminate |].
  intros _. rewrite IH by reflexivity. reflexivity.
Qed.

Lemma split_lines_at_newline (b : pystr) (i : nat) :
  index NL b = Some i ->
  split_lines b
  = (take (S i) b :: complete_lines (drop (S i) b), remainder (drop (S i) b)).
Proof.
  unfold complete_lines, remainder. revert i.
  induction b as [|c b IH]; simpl; intros i Hi; [discriminate |].
  destruct (c =? NL) eqn:Hc.
  - injection Hi as <-. simpl. rewrite drop_0.
    destruct (split_lines b); reflexivity.
  - destruct (index NL b) as [j|]; [| discriminate].
    injection Hi as <-. rewrite (IH j eq_refl). reflexivity.
Qed.

Lemma complete_lines_count (s : pystr) :
  length (complete_lines s) = terminators s.
Proof.
  unfold complete_lines, terminators.
  induction s as [|c s IH]; simpl; [reflexivity |].
  destruct (split_lines s) as [ls r]; simpl in IH.
  destruct (c =? NL); simpl.
  - congruence.
  - destruct ls; simpl in *; exact IH.
Qed.

Lemma remainder_no_terminator (s : pystr) : terminators (remainder s) = 0%nat.
Proof.
  unfold terminators, remainder.
  induction s as [|c s IH]; simpl; [reflexivity |].
  destruct (split_lines s) as [ls r]; simpl in IH.
  destruct (c =? NL) eqn:Hc; simpl; [exact IH |].
  destruct ls; simpl; [rewrite Hc |]; exact IH.
Qed.

(** ** The capture *)

Section CaptureFacts.
Context `{Ansi2HTMLConverter}.

(** The loop of [write] emits the non-blank complete lines of the buffer
    and leaves the unterminated remainder. *)
Lemma drain_spec (w : SseLogStreamWrapper) :
  drain w
  = {| queue := queue w
                ++ List.map log_item (List.filter non_blank (complete_lines (buffer w)));
       buffer := remainder (buffer w) |}.
Proof.
  funelim (drain w).
  - match goal with IH : drain (take_line _ _) = {| queue := _ |} |- _ =>
      rewrite IH end.
    unfold complete_lines at 2, remainder at 2.
    rewrite (split_lines_at_newline _ _ Hi). simpl.
    unfold take_line, non_blank.
    destruct (truthy (strip (take (S i) (buffer w)))); simpl.
    + rewrite <- app_assoc. reflexivity.
    + reflexivity.
  - match goal with E : index NL (buffer w) = None |- _ =>
      unfold complete_lines, remainder;
      rewrite (split_lines_no_newline _ E) end.
    simpl. rewrite app_nil_r. destruct w; reflexivity.
Qed.

Lemma writes_snoc (ss : list pystr) (s : pystr) (w : SseLogStreamWrapper) :
  writes (ss ++ [s]) w = fst (write s (writes ss w)).
Proof. unfold writes. rewrite fold_left_app. reflexivity. Qed.

(** A run of [write] calls on a fresh capture acts as one [write] of the
    concatenated text. *)
Lemma writes_spec (ss : list pystr) (q : list message) :
  writes ss (new_wrapper q)
  = {| queue := q ++ List.map log_item
                      (List.filter non_blank (complete_lines (concat ss)));
       buffer := remainder (concat ss) |}.
Proof.
  induction ss as [|s ss IH] using rev_ind.
  - simpl. rewrite app_nil_r. reflexivity.
  - rewrite writes_snoc, IH. unfold write. simpl. rewrite drain_spec. simpl.
    rewrite concat_app. simpl. rewrite app_nil_r.
    rewrite (complete_lines_app (concat ss) s), (remainder_app (concat ss) s).
    rewrite List.filter_app, List.map_app, app_assoc. reflexivity.
Qed.

Lemma flush_queue (w : SseLogStreamWrapper) :
  queue (flush w)
  = queue w ++ (if non_blank (buffer w) then [log_item (buffer w)] else []).
Proof.
  unfold flush, non_blank. destruct (truthy (strip (buffer w))); simpl.
  - reflexivity.
  - rewrite app_nil_r. reflexivity.
Qed.

Lemma flush_flush (w : SseLogStreamWrapper) : flush (flush w) = flush w.
Proof.
  unfold flush. destruct (truthy (strip (buffer w))) eqn:Hb; simpl.
  - reflexivity.
  - rewrite Hb. reflexivity.
Qed.

End CaptureFacts.

(** ** The worker *)

Section WorkerFacts.
Context `{Ansi2HTMLConverter}.

Lemma logs_of_lines (ls : list pystr) : Forall is_log (List.map log_item ls).
Proof. induction ls; simpl; constructor; [reflexivity | assumption]. Qed.

Lemma write_queue (s : pystr) (w : SseLogStreamWrapper) :
  exists logs, queue (fst (write s w)) = queue w ++ logs /\ Forall is_log logs.
Proof.
  unfold write. simpl. rewrite drain_spec. simpl.
  eexists. split; [reflexivity | apply logs_of_lines].
Qed.

Lemma flush_logs (w : SseLogStreamWrapper) :
  exists logs, queue (flush w) = queue w ++ logs /\ Forall is_log logs.
Proof.
  rewrite flush_queue. eexists. split; [reflexivity |].
  destruct (non_blank (buffer w)); repeat constructor.
Qed.

Lemma flush_blank (w : SseLogStreamWrapper) : non_blank (buffer (flush w)) = false.
Proof.
  unfold flush, non_blank. destruct (truthy (strip (buffer w))) eqn:Hb; simpl.
  - reflexivity.
  - exact Hb.
Qed.

Lemma run_app (a b : list effect) (w : world) : run (a ++ b) w = run b (run a w).
Proof. unfold run. apply fold_left_app. Qed.

(** The engine's calls on the capture only add log events; they touch
    neither the signal nor the console. *)
Lemma run_calls (calls : list sink_call) (w : world) :
  exists logs,
    queue (sse (run (List.map call_of calls) w)) = queue (sse w) ++ logs
    /\ Forall is_log logs
    /\ finish_event (run (List.map call_of calls) w) = finish_event w
    /\ q_a_console (run (List.map call_of calls) w) = q_a_console w.
Proof.
  revert w. induction calls as [|c calls IH]; intros w; simpl.
  - exists []. rewrite app_nil_r. repeat split. constructor.
  - destruct (IH (exec w (call_of c))) as (l2 & Hq & Hl2 & Hf & Hc).
    assert (exists l1, queue (sse (exec w (call_of c))) = queue (sse w) ++ l1
                       /\ Forall is_log l1
                       /\ finish_event (exec w (call_of c)) = finish_event w
                       /\ q_a_console (exec w (call_of c)) = q_a_console w)
      as (l1 & Hq1 & Hl1 & Hf1 & Hc1).
    { destruct c as [s|]; simpl.
      - destruct (write_queue s (sse w)) as (l & ? & ?). exists l. auto.
      - destruct (flush_logs (sse w)) as (l & ? & ?). exists l. auto. }
    exists (l1 ++ l2). unfold run in *. simpl.
    rewrite Hq, Hq1, Hf, Hc, app_assoc.
    repeat split; try assumption. apply Forall_app; auto.
Qed.

(** The [finally] block adds the [finished] message and nothing else to
    the queue, and sets the signal. *)
Lemma run_finally (con : option Console) (w : world) :
  queue (sse (run (finally_block con) w)) = queue (sse w) ++ [finished_msg]
  /\ finish_event (run (finally_block con) w) = true.
Proof.
  unfold finally_block.
  destruct (saved_file con) as [|f]; [| destruct con]; simpl; auto.
Qed.

(** The events of one job, path by path. *)
Lemma rag_worker_queue (con : option Console) (eng : engine) :
  exists logs,
    Forall is_log logs
    /\ queue (sse (run (fst (rag_worker con eng)) (start con)))
       = logs
         ++ match con, result eng with
            | None, _ =>
                [Msg error (Some (lit "Internal error: q_a.console not found."))]
            | Some _, returns final_answer => [Msg answer (Some final_answer)]
            | Some _, raises e =>
                if is_Exception e
                then [Msg error (Some (lit "An error occurred: " ++ str_e e))]
                else []
            end
         ++ [finished_msg].
Proof.
  destruct con as [c|]; [| exists []; split; [constructor | reflexivity]].
  set (w1 := run (List.map call_of (output eng))
               (exec (start (Some c)) (set_file (File worker_sse_wrapper)))).
  destruct (run_calls (output eng)
              (exec (start (Some c)) (set_file (File worker_sse_wrapper))))
    as (logs & Hq & Hlogs & _ & _).
  fold w1 in Hq. cbn in Hq.
  destruct (flush_logs (sse w1)) as (l2 & Hq2 & Hl2).
  assert (Hbody : forall rest,
             run ((set_file (File worker_sse_wrapper)
                     :: List.map call_of (output eng)) ++ rest) (start (Some c))
             = run rest w1).
  { intros rest. rewrite run_app. reflexivity. }
  unfold rag_worker.
  destruct (result eng) as [e|a]; [destruct (is_Exception e) |]; cbn [fst].
  - exists (logs ++ l2). split; [apply Forall_app; auto |].
    rewrite Hbody, run_app, (proj1 (run_finally _ _)).
    cbn. rewrite Hq2, Hq. rewrite <- !app_assoc. reflexivity.
  - exists logs. split; [assumption |].
    rewrite Hbody, (proj1 (run_finally _ _)), Hq. reflexivity.
  - exists (logs ++ l2). split; [apply Forall_app; auto |].
    rewrite Hbody, run_app, (proj1 (run_finally _ _)).
    cbn. rewrite Hq2, Hq. rewrite <- !app_assoc. reflexivity.
Qed.

End WorkerFacts.

Section WorkerClaims.
Context `{Ansi2HTMLConverter}.

(** Every run of the worker ends with [finish_event.set()] followed by
    [q.put({'type': 'finished'})]. *)
Lemma rag_worker_ends (con : option Console) (eng : engine) :
  exists pre, fst (rag_worker con eng) = pre ++ [finish_set; q_put finished_msg].
Proof.
  assert (Hfin : exists x, finally_block con = x ++ [finish_set; q_put finished_msg])
    by (unfold finally_block; eexists; reflexivity).
  destruct Hfin as [x Hx]. unfold rag_worker. rewrite Hx.
  destruct con as [c|]; [destruct (result eng) as [e|a];
                         [destruct (is_Exception e) |] |]; cbn [fst];
    eexists; rewrite ?app_assoc; reflexivity.
Qed.

Lemma not_finished_of_log (logs : list message) :
  Forall is_log logs -> Forall (fun m => type m <> finished) logs.
Proof.
  intros Hlogs. eapply Forall_impl; [exact Hlogs |].
  intros m Hm. unfold is_log in Hm. rewrite Hm. discriminate.
Qed.

(** Before its last effect the worker has put no [finished] message. *)
Lemma rag_worker_before_finished (con : option Console) (eng : engine) :
  exists before,
    queue (sse (run (fst (rag_worker con eng)) (start con)))
    = before ++ [finished_msg]
    /\ Forall (fun m => type m <> finished) before.
Proof.
  destruct (rag_worker_queue con eng) as (logs & Hlogs & Hq).
  rewrite Hq, app_assoc. eexists. split; [reflexivity |].
  apply Forall_app. split; [apply not_finished_of_log, Hlogs |].
  destruct con; [destruct (result eng) as [e|a];
                 [destruct (is_Exception e) |] |];
    repeat constructor; discriminate.
Qed.


(** C2 (as the code behaves). In every job there is a moment, after a
    prefix of the worker's effects, at which [finished_signal] is set
    while the queue holds no [finished] message: the worker calls
    [finish_event.set()] before [q.put({'type': 'finished'})]. *)
Theorem signal_set_before_finished_pushed (con : option Console) (eng : engine) :
  exists n,
    finish_event (run (take n (fst (rag_worker con eng))) (start con)) = true
    /\ Forall (fun m => type m <> finished)
         (queue (sse (run (take n (fst (rag_worker con eng))) (start con)))).
Proof.
  destruct (rag_worker_ends con eng) as [pre Hpre].
  destruct (rag_worker_before_finished con eng) as (before & Hq & Hbefore).
  exists (length (pre ++ [finish_set])).
  assert (Htake : take (length (pre ++ [finish_set])) (fst (rag_worker con eng))
                  = pre ++ [finish_set]).
  { rewrite Hpre.
    change (pre ++ [finish_set; q_put finished_msg])
      with (pre ++ [finish_set] ++ [q_put finished_msg]).
    rewrite app_assoc. apply take_app_length. }
  rewrite Htake. split.
  - rewrite run_app. reflexivity.
  - rewrite Hpre in Hq.
    change (pre ++ [finish_set; q_put finished_msg])
      with (pre ++ [finish_set] ++ [q_put finished_msg]) in Hq.
    rewrite app_assoc, run_app in Hq. cbn in Hq.
    apply app_inj_tail in Hq. destruct Hq as [-> _]. exact Hbefore.
Qed.

(** C3. When the console exists and the engine returns [final_answer], the
    worker flushes the capture and only then puts the answer: its effects
    are the binding of the capture, the engine's output, [flush()], the
    [answer] message, then the [finally] block; the buffer holds nothing
    but white space when the answer is put; and the queue ends up as zero
    or more [log_html] messages, one [answer] carrying [final_answer], and
    [finished]. *)
Theorem rag_worker_success (c : Console) (eng : engine) (final_answer : pystr) :
  result eng = returns final_answer ->
  rag_worker (Some c) eng
  = ((set_file (File worker_sse_wrapper) :: List.map call_of (output eng))
       ++ [call_flush; q_put (Msg answer (Some final_answer))]
       ++ finally_block (Some c), None)
  /\ non_blank (buffer (sse (run
       ((set_file (File worker_sse_wrapper) :: List.map call_of (output eng))
          ++ [call_flush]) (start (Some c))))) = false
  /\ exists logs,
       Forall is_log logs
       /\ queue (sse (run (fst (rag_worker (Some c) eng)) (start (Some c))))
          = logs ++ [Msg answer (Some final_answer); finished_msg].
Proof.
  intros Hres. split; [| split].
  - unfold rag_worker. rewrite Hres. reflexivity.
  - rewrite run_app. cbn. apply flush_blank.
  - destruct (rag_worker_queue (Some c) eng) as (logs & Hlogs & Hq).
    rewrite Hres in Hq. exists logs. split; assumption.
Qed.

(** C4 (amended). When the console exists and the engine raises an
    exception that is an instance of [Exception], the worker returns
    without raising, and the queue ends up as zero or more [log_html]
    messages, one [error] message whose text is "An error occurred: "
    followed by [str(e)], and [finished]; no message is an [answer]. *)
Theorem rag_worker_failure (c : Console) (eng : engine) (e : exn) :
  result eng = raises e ->
  is_Exception e = true ->
  snd (rag_worker (Some c) eng) = None
  /\ exists logs,
       Forall is_log logs
       /\ queue (sse (run (fst (rag_worker (Some c) eng)) (start (Some c))))
          = logs ++ [Msg error (Some (lit "An error occurred: " ++ str_e e));
                     finished_msg]
       /\ Forall (fun m => type m <> answer)
            (queue (sse (run (fst (rag_worker (Some c) eng)) (start (Some c))))).
Proof.
  intros Hres Hexc. split.
  - unfold rag_worker. rewrite Hres, Hexc. reflexivity.
  - destruct (rag_worker_queue (Some c) eng) as (logs & Hlogs & Hq).
    rewrite Hres, Hexc in Hq. exists logs. split; [assumption |].
    split; [exact Hq |]. rewrite Hq. apply Forall_app. split.
    + eapply Forall_impl; [exact Hlogs |].
      intros m Hm. unfold is_log in Hm. rewrite Hm. discriminate.
    + repeat constructor; discriminate.
Qed.

(** The console binding after a job, case by case. *)
Lemma rag_worker_console (con : option Console) (eng : engine) :
  q_a_console (run (fst (rag_worker con eng)) (start con))
  = match con with
    | None => None
    | Some c =>
        match saved_file con with
        | File f => Some {| file := Some (File f) |}
        | PyNone => Some {| file := Some (File worker_sse_wrapper) |}
        end
    end.
Proof.
  destruct con as [c|]; [| reflexivity].
  set (w1 := run (List.map call_of (output eng))
               (exec (start (Some c)) (set_file (File worker_sse_wrapper)))).
  destruct (run_calls (output eng)
              (exec (start (Some c)) (set_file (File worker_sse_wrapper))))
    as (logs & _ & _ & _ & Hc).
  fold w1 in Hc. cbn in Hc.
  assert (Hbody : forall rest,
             run ((set_file (File worker_sse_wrapper)
                     :: List.map call_of (output eng)) ++ rest) (start (Some c))
             = run rest w1).
  { intros rest. rewrite run_app. reflexivity. }
  assert (Hfin : forall w, q_a_console w = Some {| file := Some (File worker_sse_wrapper) |} ->
             q_a_console (run (finally_block (Some c)) w)
             = match saved_file (Some c) with
               | File f => Some {| file := Some (File f) |}
               | PyNone => Some {| file := Some (File worker_sse_wrapper) |}
               end).
  { intros w Hw. unfold finally_block.
    destruct (saved_file (Some c)); cbn; [exact Hw | reflexivity]. }
  unfold rag_worker.
  destruct (result eng) as [e|a]; [destruct (is_Exception e) |]; cbn [fst];
    rewrite Hbody, ?run_app; apply Hfin; cbn; exact Hc.
Qed.

(** C5. For the console the engine has (see [file_bound]: none at all, or
    a rich [Console], whose [file] reads as a file object), and whatever
    the engine does, the binding after the worker has run equals the
    binding before it: when the engine returns, when it raises an
    [Exception] or any other exception, and when the set-up finds no
    console. *)
Theorem rag_worker_restores_file (con : option Console) (eng : engine) :
  file_bound con ->
  q_a_console (run (fst (rag_worker con eng)) (start con)) = con.
Proof.
  intros Hcon. rewrite rag_worker_console.
  destruct con as [[fl]|]; [| reflexivity].
  destruct Hcon as [f Hf]. cbn in Hf. subst fl. reflexivity.
Qed.

End WorkerClaims.

(** ** The polling loop *)

Lemma none_finished_last (l : list message) : none_finished l -> finished_last l.
Proof.
  intros Hl pre m post -> Hm.
  apply Forall_app in Hl as [_ Hl]. inversion Hl; subst. congruence.
Qed.

Lemma finished_last_snoc (pre : list message) (m : message) :
  none_finished pre -> finished_last (pre ++ [m]).
Proof.
  intros Hpre a x post Heq Hx.
  destruct post as [|y post] using rev_ind; [reflexivity |].
  exfalso. clear IHpost.
  change (a ++ x :: post ++ [y]) with (a ++ (x :: post) ++ [y]) in Heq.
  rewrite app_assoc in Heq. apply app_inj_tail in Heq as [-> _].
  apply Forall_app in Hpre as [_ Hpre]. inversion Hpre; subst. congruence.
Qed.

Section DispatchFacts.
Context `{Ansi2HTMLConverter} `{JsonEncoder}.

Lemma flush_buffer (w : SseLogStreamWrapper) :
  buffer (flush w) = if non_blank (buffer w) then [] else buffer w.
Proof. unfold flush, non_blank. destruct (truthy _); reflexivity. Qed.

Lemma exec_ahead (p : list message) (w w' : world) (e : effect) :
  ahead p w w' -> ahead p (exec w e) (exec w' e).
Proof.
  unfold ahead. intros [Hq Hb]. destruct e as [s| |m|f|]; cbn.
  - rewrite !drain_spec. cbn. rewrite Hq, Hb, app_assoc. auto.
  - rewrite !flush_queue, !flush_buffer, Hq, Hb, app_assoc. auto.
  - rewrite Hq, app_assoc. auto.
  - auto.
  - auto.
Qed.

Lemma run_ahead (p : list message) (es : list effect) (w w' : world) :
  ahead p w w' -> ahead p (run es w) (run es w').
Proof.
  revert w w'. induction es as [|e es IH]; intros w w' Hw; [exact Hw |].
  apply (IH (exec w e) (exec w' e)), exec_ahead, Hw.
Qed.

(** Closes a goal that assumes the generator, now [closed], is not. *)
Ltac still_open := let Hc := fresh "Hc" in intros Hc; exfalso; apply Hc; reflexivity.

Lemma inv_step (produced : list message) (s : system) (c : choice) :
  inv produced s -> inv produced (step s c).
Proof.
  destruct s as [w es [p snt wr]].
  intros ((dropped & Hprod & Hdrop) & Hfr & Hpc).
  unfold framed, pc_ok, run in *. cbn in *.
  assert (Hkeep : forall p', (p' <> closed -> p <> closed) ->
             exists dropped0,
               snt ++ dropped0 ++ queue (sse (fold_left exec es w)) = produced
               /\ (p' <> closed -> dropped0 = [])).
  { intros p' Hp'. exists dropped. split; [exact Hprod | auto]. }
  destruct c; cbn.
  - (* the worker performs its next effect *)
    destruct es as [|e es]; cbn; (split; [apply Hkeep | ]); auto.
  - (* the generator moves to its next control point *)
    unfold gen_step. cbn. destruct p as [| |m|]; cbn.
    + destruct (negb (finish_event w) || negb (bool_decide (queue (sse w) = []))); cbn.
      * split; [apply Hkeep; intros; discriminate | auto].
      * split; [apply Hkeep; still_open |].
        split; [exact Hfr | apply none_finished_last, Hpc].
    + destruct (queue (sse w)) as [|msg q'] eqn:Hqueue; cbn.
      * split; [apply Hkeep; intros; discriminate | auto].
      * assert (Hahead : ahead [msg] w (pop w q')) by (split; [exact Hqueue | reflexivity]).
        apply (run_ahead _ es) in Hahead. destruct Hahead as [Hrun _].
        unfold run in Hrun.
        rewrite (Hdrop ltac:(discriminate)) in Hprod. cbn in Hprod.
        destruct (dumps msg) as [j|] eqn:Hj; cbn.
        -- split; [exists []; split; [| reflexivity] |].
           ++ cbn. rewrite <- Hprod, Hrun, <- app_assoc. reflexivity.
           ++ split.
              ** apply Forall2_app; [exact Hfr |].
                 constructor; [exists j; auto | constructor].
              ** exists snt. auto.
        -- split; [exists [msg]; split; [| still_open] |].
           ++ cbn. rewrite <- Hprod, Hrun. reflexivity.
           ++ split; [exact Hfr | apply none_finished_last, Hpc].
    + destruct Hpc as (pre & -> & Hpre).
      destruct (is_finished m) eqn:Hm; cbn.
      * split; [apply Hkeep; still_open |].
        split; [exact Hfr | apply finished_last_snoc, Hpre].
      * split; [apply Hkeep; intros; discriminate |].
        split; [exact Hfr |].
        apply Forall_app. split; [exact Hpre | repeat constructor; exact Hm].
    + split; [apply Hkeep | ]; auto.
  - (* the client goes away *)
    destruct p as [| |m|]; cbn; try (split; [apply Hkeep | ]; auto; fail).
    split; [apply Hkeep; still_open |].
    split; [exact Hfr |].
    destruct Hpc as (pre & -> & Hpre). apply finished_last_snoc, Hpre.
Qed.

Lemma inv_schedule (produced : list message) (cs : list choice) (s : system) :
  inv produced s -> inv produced (schedule cs s).
Proof.
  revert s. induction cs as [|c cs IH]; intros s Hs; [exact Hs |].
  apply (IH (step s c)), inv_step, Hs.
Qed.

Lemma inv_pc (produced : list message) (s : system) :
  inv produced s -> finished_last (sent (gen s)).
Proof.
  intros (_ & _ & Hpc). unfold pc_ok in Hpc.
  destruct (pc (gen s)) as [| |m|].
  - apply none_finished_last, Hpc.
  - apply none_finished_last, Hpc.
  - destruct Hpc as (pre & -> & Hpre). apply finished_last_snoc, Hpre.
  - exact Hpc.
Qed.

Lemma schedule_app (a b : list choice) (s : system) :
  schedule (a ++ b) s = schedule b (schedule a s).
Proof. unfold schedule. apply fold_left_app. Qed.



Lemma step_while_nonempty (w : world) (es : list effect) (d : dispatcher) :
  pc d = at_while -> queue (sse w) <> [] ->
  step (System w es d) run_generator
  = System w es (Dispatcher at_get (sent d) (wire d)).
Proof.
  intros Hpc Hq. cbn [step shared gen worker]. unfold gen_step. rewrite Hpc.
  rewrite (bool_decide_eq_false_2 _ Hq), orb_true_r. reflexivity.
Qed.

Lemma step_get (w : world) (es : list effect) (d : dispatcher)
    (m : message) (q' : list message) (j : pystr) :
  pc d = at_get -> queue (sse w) = m :: q' -> dumps m = Some j ->
  step (System w es d) run_generator
  = System (pop w q') es (Dispatcher (at_yield m) (sent d ++ [m]) (wire d ++ [frame j])).
Proof.
  intros Hpc Hq Hj. cbn [step shared gen worker]. unfold gen_step.
  rewrite Hpc, Hq, Hj. reflexivity.
Qed.

Lemma step_yield (w : world) (es : list effect) (d : dispatcher) (m : message) :
  pc d = at_yield m ->
  step (System w es d) run_generator
  = System w es (Dispatcher (if is_finished m then closed else at_while)
                   (sent d) (wire d)).
Proof.
  intros Hpc. cbn [step shared gen worker]. unfold gen_step. rewrite Hpc.
  destruct (is_finished m); reflexivity.
Qed.

(** The generator, running alone on a queue that ends with the only
    [finished] message, sends the whole queue and closes. *)
Lemma generator_drains (l : list message) (fin : message) (w : world)
    (es : list effect) (d : dispatcher) :
  queue (sse w) = l ++ [fin] ->
  none_finished l ->
  is_finished fin = true ->
  (forall m, m ∈ l ++ [fin] -> is_Some (dumps m)) ->
  pc d = at_while ->
  exists w' d',
    schedule (repeat run_generator (3 * length (l ++ [fin]))) (System w es d)
    = System w' es d'
    /\ pc d' = closed
    /\ sent d' = sent d ++ l ++ [fin]
    /\ queue (sse w') = []
    /\ finish_event w' = finish_event w
    /\ q_a_console w' = q_a_console w
    /\ wire d' = wire d ++ List.map (fun m => frame (default [] (dumps m))) (l ++ [fin]).
Proof.
  revert w d. induction l as [|m l IH]; intros w d Hq Hl Hfin Hdumps Hpc.
  - cbn [app length Nat.mul Nat.add repeat schedule fold_left].
    cbn [app] in Hq.
    destruct (Hdumps fin) as [j Hj]; [left |].
    rewrite (step_while_nonempty w es d Hpc) by (rewrite Hq; discriminate).
    rewrite (step_get w es (Dispatcher at_get (sent d) (wire d)) fin [] j eq_refl Hq Hj).
    cbn [sent wire].
    rewrite (step_yield (pop w []) es
               (Dispatcher (at_yield fin) (sent d ++ [fin]) (wire d ++ [frame j]))
               fin eq_refl), Hfin.
    eexists _, _. split; [reflexivity |]. cbn [List.map wire]. rewrite Hj.
    repeat split.
  - replace (3 * length ((m :: l) ++ [fin]))%nat
      with (S (S (S (3 * length (l ++ [fin]))))) by (cbn [app length]; lia).
    cbn [repeat schedule fold_left].
    cbn [app] in Hq.
    destruct (Hdumps m) as [j Hj]; [left |].
    apply Forall_cons in Hl as [Hm Hl].
    rewrite (step_while_nonempty w es d Hpc) by (rewrite Hq; discriminate).
    rewrite (step_get w es (Dispatcher at_get (sent d) (wire d)) m (l ++ [fin]) j
               eq_refl Hq Hj).
    cbn [sent wire].
    rewrite (step_yield (pop w (l ++ [fin])) es
               (Dispatcher (at_yield m) (sent d ++ [m]) (wire d ++ [frame j]))
               m eq_refl), Hm. cbn [sent wire].
    destruct (IH (pop w (l ++ [fin])) (Dispatcher at_while (sent d ++ [m]) (wire d ++ [frame j])))
      as (w' & d' & Hrun & Hclosed & Hsent & Hqueue & Hf & Hc & Hwire);
      [reflexivity | exact Hl | exact Hfin | | reflexivity |].
    { intros x Hx. apply Hdumps. right. exact Hx. }
    unfold schedule in Hrun. rewrite Hrun. exists w', d'. split; [reflexivity |].
    split; [exact Hclosed |].
    split; [rewrite Hsent; cbn [sent]; rewrite <- app_assoc; reflexivity |].
    split; [exact Hqueue |]. split; [exact Hf |]. split; [exact Hc |].
    rewrite Hwire. cbn [wire app List.map]. rewrite Hj, <- app_assoc. reflexivity.
Qed.

(** A turn of the generator sends nothing, or pops the oldest message and
    yields its frame, and that one only, in the same turn. *)
Lemma gen_step_one_frame (w : world) (d : dispatcher) :
  (sent (snd (gen_step w d)) = sent d /\ wire (snd (gen_step w d)) = wire d)
  \/ exists m j,
       queue (sse w) = m :: queue (sse (fst (gen_step w d)))
       /\ dumps m = Some j
       /\ sent (snd (gen_step w d)) = sent d ++ [m]
       /\ wire (snd (gen_step w d)) = wire d ++ [frame j]
       /\ pc (snd (gen_step w d)) = at_yield m.
Proof.
  unfold gen_step. destruct (pc d) as [| |m|].
  - destruct (negb (finish_event w) || negb (bool_decide (queue (sse w) = [])));
      left; split; reflexivity.
  - destruct (queue (sse w)) as [|msg q'] eqn:Hq; [left; split; reflexivity |].
    destruct (dumps msg) as [j|] eqn:Hj; [| left; split; reflexivity].
    right. exists msg, j. cbn. auto.
  - destruct (is_finished m); left; split; reflexivity.
  - left. split; reflexivity.
Qed.

(** C8. Whatever the worker's effects and however the worker, the
    generator and the client are scheduled: the messages the generator
    has sent are a prefix, in order, of the messages the worker produces;
    the wire carries exactly one frame per message sent, in the same
    order; nothing is sent after a [finished] message; a turn of the
    generator that pops a message yields the frame of that message alone,
    in that turn.  Every message popped is forwarded: while the stream is
    open, the messages sent followed by those still waiting or still to
    come are all the worker's messages, none is lost; the [get] that finds
    a message removes it from the queue and yields its frame at once; and
    from the head of the loop, with a queue that ends with the only
    [finished] message, the generator left to run sends every waiting
    message, one frame each, in queue order, empties the queue and closes
    the stream, having then sent, if the worker is done, all the worker's
    messages. *)
Theorem stream_preserves_order (w0 : world) (es : list effect) (cs : list choice) :
  let s := schedule cs (System w0 es (Dispatcher at_while [] [])) in
  sent (gen s) `prefix_of` queue (sse (run es w0))
  /\ Forall2 (fun m x => exists j, dumps m = Some j /\ x = frame j)
       (sent (gen s)) (wire (gen s))
  /\ finished_last (sent (gen s))
  /\ (forall w d,
        (sent (snd (gen_step w d)) = sent d /\ wire (snd (gen_step w d)) = wire d)
        \/ exists m j,
             queue (sse w) = m :: queue (sse (fst (gen_step w d)))
             /\ dumps m = Some j
             /\ sent (snd (gen_step w d)) = sent d ++ [m]
             /\ wire (snd (gen_step w d)) = wire d ++ [frame j]
             /\ pc (snd (gen_step w d)) = at_yield m)
  /\ (pc (gen s) <> closed ->
      sent (gen s) ++ queue (sse (run (worker s) (shared s))) = queue (sse (run es w0)))
  /\ (forall w d m q' j,
        pc d = at_get -> queue (sse w) = m :: q' -> dumps m = Some j ->
        gen_step w d
        = (pop w q', Dispatcher (at_yield m) (sent d ++ [m]) (wire d ++ [frame j])))
  /\ (forall l fin,
        pc (gen s) = at_while ->
        queue (sse (shared s)) = l ++ [fin] ->
        none_finished l ->
        is_finished fin = true ->
        (forall m, m ∈ l ++ [fin] -> is_Some (dumps m)) ->
        let s' := schedule (repeat run_generator (3 * length (l ++ [fin]))) s in
        pc (gen s') = closed
        /\ sent (gen s') = sent (gen s) ++ l ++ [fin]
        /\ wire (gen s')
           = wire (gen s) ++ List.map (fun m => frame (default [] (dumps m))) (l ++ [fin])
        /\ queue (sse (shared s')) = []
        /\ (worker s = [] -> sent (gen s') = queue (sse (run es w0)))).
Proof.
  intros s.
  assert (Hinv : inv (queue (sse (run es w0))) s).
  { apply inv_schedule. split; [| split].
    - exists []. cbn. auto.
    - constructor.
    - constructor. }
  clearbody s.
  assert (Hkept : pc (gen s) <> closed ->
            sent (gen s) ++ queue (sse (run (worker s) (shared s)))
            = queue (sse (run es w0))).
  { intros Hopen. destruct Hinv as ((dropped & Hprod & Hdrop) & _).
    rewrite (Hdrop Hopen) in Hprod. exact Hprod. }
  split; [| split; [| split; [| split; [| split; [| split]]]]].
  - destruct Hinv as ((dropped & Hprod & _) & _). eexists. symmetry. exact Hprod.
  - apply Hinv.
  - eapply inv_pc, Hinv.
  - apply gen_step_one_frame.
  - exact Hkept.
  - intros w d m q' j Hpc Hq Hj. unfold gen_step. rewrite Hpc, Hq, Hj. reflexivity.
  - intros l fin Hpc Hq Hl Hfin Hdumps s'.
    assert (Hopen : pc (gen s) <> closed) by (rewrite Hpc; discriminate).
    specialize (Hkept Hopen). clear Hinv Hopen.
    destruct s as [w es' d]. cbn [gen shared worker] in *.
    destruct (generator_drains l fin w es' d Hq Hl Hfin Hdumps Hpc)
      as (w' & d' & Hrun & Hclosed & Hsent & Hqueue & _ & _ & Hwire).
    subst s'. rewrite Hrun. cbn [gen shared].
    split; [exact Hclosed |]. split; [exact Hsent |]. split; [exact Hwire |].
    split; [exact Hqueue |].
    intros Hdone. subst es'. cbn [run fold_left] in Hkept.
    rewrite Hsent, <- Hq. exact Hkept.
Qed.

End DispatchFacts.

(** ** The capture, as the claims state it *)

Section CaptureClaims.
Context `{Ansi2HTMLConverter}.

(** C6 (amended). After any sequence of [write] calls on a fresh capture,
    the queue holds one [log_html] message per non-blank complete line of
    the text written, in order; every line terminator written has been
    consumed, and the messages together with the blank lines account for
    all of them, so there are at most as many messages as terminators; the
    buffer holds the unterminated remainder; and a [flush] adds exactly one
    message when that remainder is not blank and none otherwise. *)
Theorem capture_emits_non_blank_lines (ss : list pystr) :
  let w := writes ss (new_wrapper []) in
  queue w = List.map log_item (List.filter non_blank (complete_lines (concat ss)))
  /\ (length (queue w)
      + length (List.filter (fun l => negb (non_blank l)) (complete_lines (concat ss)))
      = terminators (concat ss))%nat
  /\ (length (queue w) <= terminators (concat ss))%nat
  /\ buffer w = remainder (concat ss)
  /\ terminators (buffer w) = 0%nat
  /\ queue (flush w)
     = queue w ++ (if non_blank (buffer w) then [log_item (buffer w)] else []).
Proof.
  intros w. unfold w. rewrite writes_spec. cbn.
  split; [reflexivity |]. split; [| split; [| split; [reflexivity | split]]].
  - rewrite length_map, <- complete_lines_count. apply List.filter_length.
  - rewrite length_map, <- complete_lines_count. apply List.filter_length_le.
  - apply remainder_no_terminator.
  - rewrite flush_queue. reflexivity.
Qed.

(** C7. A second [flush] with no [write] in between leaves the capture,
    queue and buffer, as the first one left it; and a [flush] on an empty
    buffer changes nothing. *)
Theorem flush_twice_emits_nothing (w : SseLogStreamWrapper) :
  flush (flush w) = flush w
  /\ queue (flush (flush w)) = queue (flush w)
  /\ flush {| queue := queue w; buffer := [] |} = {| queue := queue w; buffer := [] |}.
Proof.
  split; [apply flush_flush |]. split; [rewrite flush_flush; reflexivity |].
  reflexivity.
Qed.

End CaptureClaims.

(** ** The routes *)

Section AskClaims.
Context `{Interpreter}.

(** The guard comes first: a session that is not authenticated is
    answered 403 before the body is looked at. *)
Lemma ask_question_unauthenticated (session : gmap pystr json) (data : json) :
  authenticated session = false ->
  ask_question session data
  = returns (reply 403 (error_body (lit "Not connected to Neo4j. Please login."))).
Proof. intros Hs. unfold ask_question. rewrite Hs. reflexivity. Qed.

(** [/ask] on a body that is a JSON object. *)
Lemma ask_question_object (session : gmap pystr json) (kv : list (pystr * json)) :
  authenticated session = true ->
  ask_question session (JObj kv)
  = returns (if negb (py_truth (default JNull (assoc (lit "question") kv))) then
               reply 400 (error_body (lit "No question provided."))
             else
               event_stream
                 (Job (default JNull (assoc (lit "question") kv))
                      (default (JBool true) (assoc (lit "enable_multi_hop") kv))
                      (default (JStr (lit "Deeper")) (assoc (lit "search_budget") kv)))).
Proof.
  intros Hauth. unfold ask_question, py_get. rewrite Hauth.
  cbn [negb mbind outcome_bind].
  destruct (negb (py_truth (default JNull (assoc (lit "question") kv)))); reflexivity.
Qed.

(** X23. A request to [/ask] from a session that is not authenticated, or
    whose body is a JSON object with no ["question"] or an empty one, is
    answered with a 403 or a 400 reply and no stream, hence no worker; a
    request whose body is an object with a non-empty question streams the
    job with [enable_multi_hop] and [search_budget] taken from the body,
    [True] and ["Deeper"] standing in for an absent key. *)
Theorem ask_question_gate (session : gmap pystr json) (kv : list (pystr * json)) :
  (authenticated session = false
   \/ assoc (lit "question") kv = None
   \/ assoc (lit "question") kv = Some (JStr []) ->
   exists r,
     ask_question session (JObj kv) = returns r
     /\ (r = reply 403 (error_body (lit "Not connected to Neo4j. Please login."))
         \/ r = reply 400 (error_body (lit "No question provided.")))
     /\ client_error r = true
     /\ starts_worker r = false)
  /\ (forall q,
        authenticated session = true ->
        assoc (lit "question") kv = Some q ->
        py_truth q = true ->
        exists multi_hop budget,
          ask_question session (JObj kv)
          = returns (event_stream (Job q multi_hop budget))
          /\ multi_hop = default (JBool true) (assoc (lit "enable_multi_hop") kv)
          /\ budget = default (JStr (lit "Deeper")) (assoc (lit "search_budget") kv)
          /\ (assoc (lit "enable_multi_hop") kv = None -> multi_hop = JBool true)
          /\ (assoc (lit "search_budget") kv = None -> budget = JStr (lit "Deeper"))).
Proof.
  split.
  - intros Hcase. destruct (authenticated session) eqn:Hauth.
    + rewrite (ask_question_object session kv Hauth).
      destruct Hcase as [Hcase | [Hq | Hq]]; [discriminate | |]; rewrite Hq;
        cbn [default from_option id py_truth truthy negb];
        (eexists; split; [reflexivity |]; split; [right; reflexivity |];
         split; reflexivity).
    + rewrite (ask_question_unauthenticated session (JObj kv) Hauth).
      eexists. split; [reflexivity |]. split; [left; reflexivity |].
      split; reflexivity.
  - intros q Hauth Hq Htruth.
    rewrite (ask_question_object session kv Hauth), Hq.
    cbn [default from_option id]. rewrite Htruth. cbn [negb].
    eexists _, _. split; [reflexivity |]. split; [reflexivity |].
    split; [reflexivity |]. split; intros ->; reflexivity.
Qed.

(** C9 (as the code behaves). From an authenticated session, a request
    whose body is valid JSON but not an object ([null], a number, a
    string, a boolean or a list) carries no question; [data.get] raises
    [AttributeError], which leaves the view, so the request is answered
    with status 500 and not with a client error.  No stream is opened and
    no worker started. *)
Theorem ask_question_non_object_body (session : gmap pystr json) (data : json) :
  authenticated session = true ->
  (forall kv, data <> JObj kv) ->
  ask_question session data
  = raises (Exn OtherException (error_text AttributeError data))
  /\ answered_status (ask_question session data) = 500%Z
  /\ (forall r, ask_question session data <> returns r).
Proof.
  intros Hauth Hdata.
  assert (Hraise : ask_question session data
                   = raises (Exn OtherException (error_text AttributeError data))).
  { unfold ask_question, py_get, fail. rewrite Hauth. cbn [negb].
    destruct data as [| b | z | t | l | kv]; try reflexivity.
    exfalso. exact (Hdata kv eq_refl). }
  rewrite Hraise. split; [reflexivity |]. split; [reflexivity |].
  intros r. discriminate.
Qed.

End AskClaims.

Section UploadClaims.
Context `{Interpreter}.

(** [describe_medical_image] never lets an [Exception] out: whatever its
    body raises of that kind comes back as a reported failure. *)
Lemma describe_reports_failure (path : pystr) (env : vision_env) (e : exn) :
  describe_body path env = raises e ->
  is_Exception e = true ->
  exists msg, describe_medical_image path env = returns (false, JStr msg).
Proof.
  intros Hbody Hexc. unfold describe_medical_image. rewrite Hbody.
  unfold is_Exception in Hexc. destruct (cls e); try discriminate; eauto.
Qed.

Lemma describe_raises_only_base (path : pystr) (env : vision_env) (e : exn) :
  describe_medical_image path env = raises e -> is_Exception e = false.
Proof.
  unfold describe_medical_image, is_Exception.
  destruct (describe_body path env) as [e'|r]; [| discriminate].
  destruct (cls e') eqn:Hcls; try discriminate.
  intros [= <-]. rewrite Hcls. reflexivity.
Qed.

(** C10. For an authenticated upload of an allowed file that is saved and
    segmented, a description call that reports failure still yields a 200
    reply with [success] true, the two image paths, the segmentation
    information, and the fixed fallback text as description. *)
Theorem upload_image_description_fallback
    (session : gmap pystr json) (filename : option pystr) (svc : image_services)
    (uploaded : option pystr) (segmented original : pystr) (seg_info msg : json) :
  authenticated session = true ->
  filename <> Some [] ->
  allowed_file filename = true ->
  save_uploaded_image svc = returns uploaded ->
  path_given uploaded = true ->
  segment_image svc = returns (Some segmented, original, seg_info) ->
  truthy segmented = true ->
  describe_medical_image segmented (vision svc) = returns (false, msg) ->
  upload_image session (Some filename) svc
  = returns (reply 200 (JObj [
      (lit "success", JBool true);
      (lit "original_image", JStr (lit "/uploads/" ++ basename original));
      (lit "segmented_image", JStr (lit "/segmented/" ++ basename segmented));
      (lit "segmentation_info", seg_info);
      (lit "description", JStr msg_fallback)])).
Proof.
  intros Hauth Hname Hext Hsave Hup Hseg Hsegp Hdesc.
  unfold upload_image. rewrite Hauth. cbn [negb].
  rewrite bool_decide_eq_false_2 by exact Hname.
  rewrite Hext. cbn [negb].
  unfold upload_body. rewrite Hsave. cbn [mbind outcome_bind].
  rewrite Hup. cbn [negb]. rewrite Hseg. cbn [mbind outcome_bind].
  destruct segmented as [|ch segmented]; [discriminate |].
  rewrite Hdesc. reflexivity.
Qed.

End UploadClaims.

(** ** Sessions: [login], [logout], [index] and the guarded routes *)

Lemma config_key_ne_connected : lit "neo4j_config" <> lit "neo4j_connected".
Proof. intros Heq. vm_compute in Heq. discriminate. Qed.

Lemma authenticated_insert_connected (session : gmap pystr json) (b : bool) :
  authenticated (<[lit "neo4j_connected" := JBool b]> session)
  = bool_decide (is_Some (session !! lit "neo4j_config")) && b.
Proof.
  unfold authenticated.
  rewrite lookup_insert_ne by (apply not_eq_sym, config_key_ne_connected).
  rewrite lookup_insert_eq. reflexivity.
Qed.

Lemma authenticated_false_403 `{Interpreter}
    (session : gmap pystr json) (data : json) :
  authenticated session = false -> ask_question session data = returns not_connected.
Proof. intros Hs. unfold ask_question. rewrite Hs. reflexivity. Qed.

(** X1. A POST to [/login] whose probe of the database succeeds stores the
    posted credentials, each falling back to its default when the form
    lacks it, marks the session connected whatever it held before, and
    redirects to the index; from then on [/ask] streams any request with a
    non-empty question. *)
Theorem login_success_authenticates `{Interpreter}
    (environ form : gmap pystr pystr) (neo4j : pystr -> pystr -> pystr -> outcome unit)
    (session : gmap pystr json) :
  let uri := default (default_uri environ) (form !! lit "uri") in
  let user := default (default_user environ) (form !! lit "user") in
  let password := default (default_password environ) (form !! lit "password") in
  neo4j uri user password = returns tt ->
  exists session',
    login environ POST form neo4j session = returns (session', redirect (lit "index"))
    /\ session' !! lit "neo4j_config" = Some (config uri user password)
    /\ authenticated session' = true
    /\ index_page session'
       = render_template (lit "index.html")
           [(lit "neo4j_config", config uri user password)]
    /\ forall kv q,
         assoc (lit "question") kv = Some q -> py_truth q = true ->
         exists r,
           ask_question session' (JObj kv) = returns r /\ starts_worker r = true.
Proof.
  intros uri user password Hprobe.
  eexists. split; [unfold login; fold uri user password; rewrite Hprobe; reflexivity |].
  assert (Hcfg : <[lit "neo4j_connected" := JBool true]>
                   (<[lit "neo4j_config" := config uri user password]> session)
                 !! lit "neo4j_config" = Some (config uri user password)).
  { rewrite lookup_insert_ne by (apply not_eq_sym, config_key_ne_connected).
    apply lookup_insert_eq. }
  assert (Hauth : authenticated
                    (<[lit "neo4j_connected" := JBool true]>
                       (<[lit "neo4j_config" := config uri user password]> session))
                  = true).
  { rewrite authenticated_insert_connected, lookup_insert_eq. reflexivity. }
  split; [exact Hcfg |]. split; [exact Hauth |]. split.
  - unfold index_page. rewrite Hcfg. reflexivity.
  - intros kv q Hq Htruth. unfold ask_question, py_get.
    rewrite Hauth, Hq. cbn [negb mbind outcome_bind default from_option id].
    rewrite Htruth.
    cbn [negb]. eexists. split; reflexivity.
Qed.

(** X2. A POST to [/login] whose probe raises an [Exception] leaves the
    session without configuration and not connected, even when it was
    authenticated before, and answers with the login page carrying the
    error text; [/ask] then answers 403 to every request and the index
    redirects to the login page. *)
Theorem login_failure_logs_out `{Interpreter}
    (environ form : gmap pystr pystr) (neo4j : pystr -> pystr -> pystr -> outcome unit)
    (session : gmap pystr json) (e : exn) :
  neo4j (default (default_uri environ) (form !! lit "uri"))
        (default (default_user environ) (form !! lit "user"))
        (default (default_password environ) (form !! lit "password")) = raises e ->
  is_Exception e = true ->
  exists session',
    login environ POST form neo4j session
    = returns (session',
               render_template (lit "login.html")
                 [(lit "error", JStr (lit "Connection failed: " ++ str_e e));
                  (lit "defaults", default_config environ)])
    /\ session' !! lit "neo4j_config" = None
    /\ authenticated session' = false
    /\ index_page session' = redirect (lit "login")
    /\ forall data, ask_question session' data = returns not_connected.
Proof.
  intros Hprobe Hexc.
  eexists. split; [unfold login; rewrite Hprobe, Hexc; reflexivity |].
  assert (Hcfg : <[lit "neo4j_connected" := JBool false]>
                   (delete (lit "neo4j_config")
                      (<[lit "neo4j_config" :=
                           config (default (default_uri environ) (form !! lit "uri"))
                             (default (default_user environ) (form !! lit "user"))
                             (default (default_password environ) (form !! lit "password"))]>
                         session))
                 !! lit "neo4j_config" = None).
  { rewrite lookup_insert_ne by (apply not_eq_sym, config_key_ne_connected).
    apply lookup_delete_eq. }
  assert (Hauth : forall s : gmap pystr json,
             authenticated (<[lit "neo4j_connected" := JBool false]> s) = false).
  { intros s. rewrite authenticated_insert_connected. apply andb_false_r. }
  split; [exact Hcfg |]. split; [apply Hauth |]. split.
  - unfold index_page. rewrite Hcfg. reflexivity.
  - intros data. apply authenticated_false_403, Hauth.
Qed.

Section SessionFacts.
Context `{Interpreter}.

(** X3. After [/logout] the session is not authenticated: the index
    redirects to the login page, and [/ask], [/upload_image] and
    [/upload_voice] answer 403 whatever they are sent, without saving a
    file or calling a service. *)
Theorem logout_closes_routes (session : gmap pystr json) :
  snd (logout session) = redirect (lit "login")
  /\ authenticated (fst (logout session)) = false
  /\ index_page (fst (logout session)) = redirect (lit "login")
  /\ (forall data, ask_question (fst (logout session)) data = returns not_connected)
  /\ (forall image svc,
        upload_image (fst (logout session)) image svc = returns not_connected)
  /\ (forall audio svc,
        upload_voice (fst (logout session)) audio svc = ([], returns not_connected)).
Proof.
  assert (Hauth : authenticated (fst (logout session)) = false).
  { unfold logout. cbn [fst]. rewrite authenticated_insert_connected.
    apply andb_false_r. }
  split; [reflexivity |]. split; [exact Hauth |]. split; [| split; [| split]].
  - unfold index_page, logout. cbn [fst].
    rewrite lookup_insert_ne by (apply not_eq_sym, config_key_ne_connected).
    rewrite lookup_delete_eq. reflexivity.
  - intros data. apply authenticated_false_403, Hauth.
  - intros image svc. unfold upload_image. rewrite Hauth. reflexivity.
  - intros audio svc. unfold upload_voice. rewrite Hauth. reflexivity.
Qed.

End SessionFacts.

Section SessionInvariant.
Context `{Interpreter}.
Context (environ : gmap pystr pystr) (neo4j : pystr -> pystr -> pystr -> outcome unit).

Lemma serve_coherent (session session' : gmap pystr json) (r : session_request) :
  coherent session ->
  serve environ neo4j session r = returns session' ->
  coherent session'.
Proof.
  intros Hcoh. destruct r as [[|] form|]; cbn.
  - intros [= <-]. exact Hcoh.
  - unfold login.
    destruct (neo4j _ _ _) as [e|[]]; [destruct (is_Exception e) |]; cbn.
    + intros [= <-] [c Hc].
      rewrite lookup_insert_ne in Hc by (apply not_eq_sym, config_key_ne_connected).
      rewrite lookup_delete_eq in Hc. discriminate.
    + discriminate.
    + intros [= <-] _.
      rewrite authenticated_insert_connected, lookup_insert_eq. reflexivity.
  - intros [= <-] [c Hc]. unfold logout in Hc. cbn in Hc.
    rewrite lookup_insert_ne in Hc by (apply not_eq_sym, config_key_ne_connected).
    rewrite lookup_delete_eq in Hc. discriminate.
Qed.

(** X4. Starting from a session in which the stored configuration and the
    guard agree (the empty session of a new visitor is one), any sequence
    of login and logout requests that are answered leaves such a session:
    the index shows the main page exactly when [/ask] does not answer
    403. *)
Theorem sessions_stay_coherent
    (rs : list session_request) (session session' : gmap pystr json) :
  coherent session ->
  serve_all environ neo4j rs session = returns session' ->
  coherent session'
  /\ (index_page session' = redirect (lit "login") <-> authenticated session' = false)
  /\ (forall data,
        index_page session' = redirect (lit "login")
        <-> ask_question session' data = returns not_connected).
Proof.
  intros Hcoh Hserve.
  assert (Hcoh' : coherent session').
  { revert session Hcoh Hserve. induction rs as [|r rs IH]; intros session Hcoh; cbn.
    - intros [= <-]. exact Hcoh.
    - destruct (serve environ neo4j session r) as [e|s1] eqn:Hs1; cbn; [discriminate |].
      apply IH. eapply serve_coherent; eassumption. }
  assert (Hidx : index_page session' = redirect (lit "login")
                 <-> authenticated session' = false).
  { unfold index_page. destruct (session' !! lit "neo4j_config") as [c|] eqn:Hc.
    - split; [discriminate |].
      intros Hauth. rewrite Hcoh' in Hauth by (rewrite Hc; eauto). discriminate.
    - split; [| reflexivity]. intros _. unfold authenticated. rewrite Hc.
      rewrite bool_decide_eq_false_2 by (intros [? ?]; discriminate). reflexivity. }
  split; [exact Hcoh' |]. split; [exact Hidx |].
  intros data. rewrite Hidx. split.
  - apply authenticated_false_403.
  - unfold ask_question, py_get, fail.
    destruct (authenticated session'); [| reflexivity].
    cbn [negb]. destruct data; cbn [mbind outcome_bind]; try discriminate.
    destruct (negb _); discriminate.
Qed.

End SessionInvariant.

(** ** The route [/upload_image], all paths *)

(** The text after the last separator of [stem ++ sep :: ext] is [ext] when
    [ext] holds no separator. *)
Lemma after_last_keeps (sep : N) (s acc : pystr) :
  sep ∉ s ->
  (fix go (s acc : pystr) : pystr :=
     match s with
     | [] => acc
     | c :: s' => if c =? sep then go s' s' else go s' acc
     end) s acc = acc.
Proof.
  revert acc. induction s as [|c s IH]; intros acc Hs; [reflexivity |].
  apply not_elem_of_cons in Hs as [Hc Hs].
  destruct (N.eqb_spec c sep) as [->|_]; [contradiction |].
  apply IH, Hs.
Qed.

Lemma after_last_app (sep : N) (stem ext : pystr) :
  sep ∉ ext -> after_last sep (stem ++ sep :: ext) = ext.
Proof.
  intros Hext. unfold after_last.
  generalize (stem ++ sep :: ext) at 2. 
  induction stem as [|c stem IH]; intros acc; cbn.
  - rewrite N.eqb_refl. apply after_last_keeps, Hext.
  - destruct (c =? sep); apply IH.
Qed.

Lemma after_last_none (sep : N) (s : pystr) : sep ∉ s -> after_last sep s = s.
Proof. intros Hs. unfold after_last. apply after_last_keeps, Hs. Qed.

(** X5. Whether an upload is accepted depends on the text after the last
    dot of its file name alone, compared without regard to the case of
    the letters A to Z: a name [stem.ext] is accepted exactly when [ext],
    lower-cased, is one of the six extensions, whatever [stem] is, empty
    or with dots of its own. *)
Theorem allowed_file_last_extension (stem ext : pystr) :
  DOT ∉ ext ->
  allowed_file (Some (stem ++ DOT :: ext))
  = bool_decide (lower ext ∈ allowed_extensions).
Proof.
  intros Hext. unfold allowed_file.
  rewrite (after_last_app DOT stem ext Hext).
  assert (Htruthy : truthy (stem ++ DOT :: ext) = true) by (destruct stem; reflexivity).
  rewrite Htruthy.
  rewrite (bool_decide_eq_true_2 (DOT ∈ stem ++ DOT :: ext)); [reflexivity |].
  apply elem_of_app. right. left.
Qed.

(** A file name without a dot is never accepted. *)
Lemma allowed_file_needs_dot (f : pystr) : DOT ∉ f -> allowed_file (Some f) = false.
Proof.
  intros Hf. unfold allowed_file.
  rewrite (bool_decide_eq_false_2 (DOT ∈ f)) by exact Hf.
  rewrite andb_false_r. reflexivity.
Qed.

Section UploadFacts.
Context `{Interpreter}.

(** X6. An upload that is not authenticated, has no [image] part, has an
    empty file name or a file name that is not allowed is answered with a
    4xx reply that does not depend on the services: nothing is saved,
    segmented or described. *)
Theorem rejected_upload_ignores_services
    (session : gmap pystr json) (image : option (option pystr))
    (svc svc' : image_services) :
  turned_down session image ->
  upload_image session image svc = upload_image session image svc'
  /\ exists r, upload_image session image svc = returns r /\ client_error r = true.
Proof.
  unfold upload_image.
  intros [Hauth | [-> | [-> | (filename & -> & Hext)]]].
  - rewrite Hauth. split; [reflexivity | eexists; split; reflexivity].
  - destruct (authenticated session); split; try reflexivity; eexists; split; reflexivity.
  - destruct (authenticated session); split; try reflexivity; eexists; split; reflexivity.
  - destruct (authenticated session); cbn [negb];
      [| split; [reflexivity | eexists; split; reflexivity]].
    destruct (bool_decide (filename = Some [])); [| rewrite Hext; cbn [negb]];
      (split; [reflexivity | eexists; split; reflexivity]).
Qed.

(** X7. The route never lets an [Exception] out, and it answers 200 only
    after the whole pipeline ran: the session is authenticated, the file
    name is allowed, the upload was saved under a non-empty path and the
    segmentation returned a non-empty path; the body then carries
    [success] true and the base names of the two images. *)
Theorem upload_image_success_only_after_segmentation
    (session : gmap pystr json) (image : option (option pystr)) (svc : image_services) :
  (forall e, upload_image session image svc = raises e -> is_Exception e = false)
  /\ (forall body,
        upload_image session image svc = returns (reply 200 body) ->
        authenticated session = true
        /\ exists filename uploaded segmented original seg_info description,
             image = Some filename
             /\ allowed_file filename = true
             /\ save_uploaded_image svc = returns uploaded
             /\ path_given uploaded = true
             /\ segment_image svc = returns (Some segmented, original, seg_info)
             /\ truthy segmented = true
             /\ body = JObj [
                  (lit "success", JBool true);
                  (lit "original_image", JStr (lit "/uploads/" ++ basename original));
                  (lit "segmented_image", JStr (lit "/segmented/" ++ basename segmented));
                  (lit "segmentation_info", seg_info);
                  (lit "description", description)]).
Proof.
  unfold upload_image. split.
  - intros e.
    destruct (authenticated session); cbn [negb]; [| discriminate].
    destruct image as [filename|]; [| discriminate].
    destruct (bool_decide (filename = Some [])); [discriminate |].
    destruct (allowed_file filename); cbn [negb]; [| discriminate].
    destruct (upload_body svc) as [e'|r]; [| discriminate].
    destruct (is_Exception e') eqn:He'; [discriminate |].
    intros [= <-]. exact He'.
  - intros body.
    destruct (authenticated session); cbn [negb]; [| discriminate].
    destruct image as [filename|]; [| discriminate].
    destruct (bool_decide (filename = Some [])); [discriminate |].
    destruct (allowed_file filename) eqn:Hext; cbn [negb]; [| discriminate].
    destruct (upload_body svc) as [e'|r] eqn:Hbody;
      [destruct (is_Exception e'); discriminate |].
    intros [= ->]. split; [reflexivity |].
    unfold upload_body in Hbody.
    destruct (save_uploaded_image svc) as [e1|uploaded]; [discriminate |].
    cbn [mbind outcome_bind] in Hbody.
    destruct (path_given uploaded) eqn:Hup; cbn [negb] in Hbody; [| discriminate].
    destruct (segment_image svc) as [e2|[[segmented_path original] seg_info]];
      [discriminate |].
    cbn [mbind outcome_bind] in Hbody.
    destruct segmented_path as [[|ch segmented]|]; [discriminate | | discriminate].
    destruct (describe_medical_image (ch :: segmented) (vision svc))
      as [e3|[success description]]; [discriminate |].
    cbn [mbind outcome_bind] in Hbody. injection Hbody as <-.
    exists filename, uploaded, (ch :: segmented), original, seg_info.
    eexists. repeat split; try reflexivity; assumption.
Qed.

(** X8. Once an upload has passed the checks on the request, an
    [Exception] raised while saving or segmenting it is answered with a
    500 reply whose text is "Image segmentation error: " followed by
    [str(e)]; a save or a segmentation that returns no path is answered
    with a 500 reply as well. *)
Theorem upload_image_service_errors
    (session : gmap pystr json) (filename : option pystr) (svc : image_services) :
  authenticated session = true ->
  filename <> Some [] ->
  allowed_file filename = true ->
  (forall e,
     is_Exception e = true ->
     save_uploaded_image svc = raises e
     \/ (exists uploaded, save_uploaded_image svc = returns uploaded
                          /\ path_given uploaded = true
                          /\ segment_image svc = raises e) ->
     upload_image session (Some filename) svc
     = returns (reply 500 (error_body (lit "Image segmentation error: " ++ str_e e))))
  /\ (forall uploaded,
        save_uploaded_image svc = returns uploaded -> path_given uploaded = false ->
        upload_image session (Some filename) svc
        = returns (reply 500 (error_body (lit "Failed to save uploaded image."))))
  /\ (forall uploaded segmented original seg_info,
        save_uploaded_image svc = returns uploaded -> path_given uploaded = true ->
        segment_image svc = returns (segmented, original, seg_info) ->
        path_given segmented = false ->
        upload_image session (Some filename) svc
        = returns (reply 500 (error_body (lit "Image segmentation failed: "
                                          ++ py_str seg_info)))).
Proof.
  intros Hauth Hname Hext.
  assert (Hgate : upload_image session (Some filename) svc
                  = match upload_body svc with
                    | returns r => returns r
                    | raises e =>
                        if is_Exception e then
                          returns (reply 500 (error_body (lit "Image segmentation error: "
                                                          ++ str_e e)))
                        else raises e
                    end).
  { unfold upload_image. rewrite Hauth. cbn [negb].
    rewrite bool_decide_eq_false_2 by exact Hname. rewrite Hext. reflexivity. }
  rewrite Hgate. unfold upload_body. split; [| split].
  - intros e Hexc [Hsave | (uploaded & Hsave & Hup & Hseg)].
    + rewrite Hsave. cbn [mbind outcome_bind]. rewrite Hexc. reflexivity.
    + rewrite Hsave. cbn [mbind outcome_bind]. rewrite Hup. cbn [negb].
      rewrite Hseg. cbn [mbind outcome_bind]. rewrite Hexc. reflexivity.
  - intros uploaded Hsave Hup. rewrite Hsave. cbn [mbind outcome_bind].
    rewrite Hup. reflexivity.
  - intros uploaded segmented original seg_info Hsave Hup Hseg Hsegp.
    rewrite Hsave. cbn [mbind outcome_bind]. rewrite Hup. cbn [negb].
    rewrite Hseg. cbn [mbind outcome_bind].
    destruct segmented as [[|ch s]|]; [reflexivity | discriminate | reflexivity].
Qed.

End UploadFacts.

(** ** Speech recognition *)

Lemma ws_send_takes_all (f : ws_frame) (ws : websocket) :
  takes_all ws ->
  ws_send f ws
  = Some {| outbox := outbox ws ++ [f]; capacity := None;
            inbox := inbox ws; closes := closes ws |}.
Proof. unfold takes_all, ws_send. intros ->. reflexivity. Qed.

Lemma ws_send_keeps (f : ws_frame) (ws ws' : websocket) :
  ws_send f ws = Some ws' -> inbox ws' = inbox ws /\ closes ws' = closes ws.
Proof.
  unfold ws_send. destruct (capacity ws) as [[|k]|]; [discriminate | |];
    intros [= <-]; split; reflexivity.
Qed.

(** The chunk loop sends the whole chunks that lie ahead of [cur_frames]
    and nothing else. *)
Lemma send_chunks_spec (wav_data_c : list N) (cur_frames : nat) (ws : websocket) :
  takes_all ws ->
  send_chunks wav_data_c cur_frames ws
  = ({| outbox := outbox ws
                  ++ List.map binary_frame
                       (full_chunks ((length wav_data_c - cur_frames) / sample_frames)
                          (drop cur_frames wav_data_c));
        capacity := None; inbox := inbox ws; closes := closes ws |}, true).
Proof.
  funelim (send_chunks wav_data_c cur_frames ws); intros Hall.
  - (* a turn of the loop *)
    clear Heqcall.
    match goal with E : (cur_frames <? length wav_data_c)%nat = true |- _ =>
      pose proof (proj1 (Nat.ltb_lt _ _) E) as Hcur end.
    change 1280%nat with sample_frames.
    assert (Hpos : (0 < sample_frames)%nat) by (unfold sample_frames; lia).
    destruct (le_lt_dec sample_frames (length wav_data_c - cur_frames)) as [Hge|Hless].
    + (* a whole chunk lies ahead: it is sent and the loop goes on *)
      assert (Hnum : (if (sample_frames <? length wav_data_c - cur_frames)%nat
                      then sample_frames
                      else (length wav_data_c - cur_frames)%nat) = sample_frames).
      { destruct (Nat.ltb_spec sample_frames (length wav_data_c - cur_frames)); lia. }
      rewrite Hnum in *.
      assert (Hlen : length (take sample_frames (drop cur_frames wav_data_c))
                     = sample_frames).
      { rewrite length_take, length_drop. lia. }
      rewrite Hlen, Nat.ltb_irrefl.
      rewrite (ws_send_takes_all _ ws Hall).
      match goal with IH : forall ws', takes_all ws' -> _ |- _ =>
        rewrite IH by reflexivity end.
      assert (Hdiv : ((length wav_data_c - cur_frames) / sample_frames
                      = S ((length wav_data_c - (cur_frames + sample_frames))
                           / sample_frames))%nat).
      { replace (length wav_data_c - cur_frames)%nat
          with ((length wav_data_c - (cur_frames + sample_frames))
                + 1 * sample_frames)%nat by lia.
        rewrite Nat.div_add by lia. lia. }
      rewrite Hdiv. cbn [full_chunks List.map outbox inbox closes].
      rewrite drop_drop, <- app_assoc. reflexivity.
    + (* less than a chunk is left: the loop breaks without sending it *)
      assert (Hnum : (if (sample_frames <? length wav_data_c - cur_frames)%nat
                      then sample_frames
                      else (length wav_data_c - cur_frames)%nat)
                     = (length wav_data_c - cur_frames)%nat).
      { destruct (Nat.ltb_spec sample_frames (length wav_data_c - cur_frames)); lia. }
      rewrite Hnum.
      assert (Hlen : (length (take (length wav_data_c - cur_frames)
                                (drop cur_frames wav_data_c))
                      <? sample_frames)%nat = true).
      { apply Nat.ltb_lt. rewrite length_take, length_drop. lia. }
      rewrite Hlen, Nat.div_small by exact Hless.
      cbn [full_chunks List.map]. rewrite app_nil_r.
      unfold takes_all in Hall. destruct ws; cbn in *. subst. reflexivity.
  - (* nothing is left *)
    match goal with E : (cur_frames <? length wav_data_c)%nat = false |- _ =>
      pose proof (proj1 (Nat.ltb_ge _ _) E) as Hcur end.
    replace (length wav_data_c - cur_frames)%nat with 0%nat by lia.
    rewrite Nat.Div0.div_0_l.
    cbn [full_chunks List.map]. rewrite app_nil_r.
    unfold takes_all in Hall. destruct ws; cbn in *. subst. reflexivity.
Qed.

Lemma concat_full_chunks (k : nat) (l : list N) :
  concat (full_chunks k l) = take (k * sample_frames) l.
Proof.
  revert l. induction k as [|k IH]; intros l; [reflexivity |].
  cbn [full_chunks concat]. rewrite IH, take_take_drop.
  f_equal.
Qed.

Lemma full_chunks_whole (k : nat) (l : list N) :
  (k * sample_frames <= length l)%nat ->
  Forall (fun chunk => length chunk = sample_frames) (full_chunks k l).
Proof.
  revert l. induction k as [|k IH]; intros l Hk; [constructor |].
  cbn [full_chunks]. constructor.
  - rewrite length_take. lia.
  - apply IH. rewrite length_drop. lia.
Qed.

Lemma pack_samples_length (big : bool) (wav_data : list Z) (c : list N) :
  pack_samples big wav_data = Some c -> length c = (2 * length wav_data)%nat.
Proof.
  revert c. induction wav_data as [|x rest IH]; intros c; cbn [pack_samples].
  - intros [= <-]. reflexivity.
  - unfold pack_sample.
    destruct ((-32768 <=? x)%Z && (x <=? 32767)%Z); [| discriminate].
    destruct (pack_samples big rest) as [bs|]; [| discriminate].
    intros [= <-]. rewrite length_app, (IH bs eq_refl).
    destruct big; cbn [length]; lia.
Qed.

Lemma pack_samples_in_range (big : bool) (wav_data : list Z) :
  Forall (fun x => (-32768 <= x <= 32767)%Z) wav_data ->
  exists c, pack_samples big wav_data = Some c.
Proof.
  induction 1 as [|x rest Hx _ [bs IH]]; [exists []; reflexivity |].
  cbn [pack_samples]. unfold pack_sample.
  rewrite (proj2 (andb_true_iff _ _)) by (split; apply Z.leb_le; lia).
  rewrite IH. eauto.
Qed.

Section RecognitionFacts.
Context `{Interpreter}.

Lemma handle_partial (txt : json) : handle_reply (asr_result false txt) = returns None.
Proof. reflexivity. Qed.

Lemma handle_final (txt : json) : handle_reply (asr_result true txt) = returns (Some txt).
Proof. reflexivity. Qed.

Lemma handle_error (detail : json) :
  handle_reply (asr_error detail) = returns (Some (JStr [])).
Proof. reflexivity. Qed.

(** X9. The loop of [_receive_results] skips the results that are not
    final and stops at the first reply that is a final result, an error,
    or cannot be used: after any number of partial results, a final result
    gives its text, while an error reply, a reply that cannot be received
    or parsed, a reply without an [action], or the end of the connection
    give the empty text; the replies behind the one that stopped the loop
    stay unread. *)
Theorem receive_stops_at_first_final (partials : list json) (rest : list (option json)) :
  let skipped := List.map (fun txt => Some (asr_result false txt)) partials in
  (forall txt, receive_loop (skipped ++ Some (asr_result true txt) :: rest) = (txt, rest))
  /\ (forall detail,
        receive_loop (skipped ++ Some (asr_error detail) :: rest) = (JStr [], rest))
  /\ receive_loop (skipped ++ None :: rest) = (JStr [], rest)
  /\ (forall kv,
        assoc (lit "action") kv = None ->
        receive_loop (skipped ++ Some (JObj kv) :: rest) = (JStr [], rest))
  /\ receive_loop skipped = (JStr [], []).
Proof.
  intros skipped. unfold skipped.
  induction partials as [|p partials (IH1 & IH2 & IH3 & IH4 & IH5)].
  - cbn [List.map app receive_loop].
    split; [intros txt; rewrite handle_final; reflexivity |].
    split; [intros detail; rewrite handle_error; reflexivity |].
    split; [reflexivity |]. split; [| reflexivity].
    intros kv Hkv. unfold handle_reply, py_getitem. rewrite Hkv. reflexivity.
  - cbn [List.map app receive_loop]. rewrite handle_partial.
    split; [exact IH1 |]. split; [exact IH2 |]. split; [exact IH3 |].
    split; [exact IH4 | exact IH5].
Qed.

Lemma send_chunks_keeps (wav_data_c : list N) (cur_frames : nat) (ws : websocket) :
  inbox (fst (send_chunks wav_data_c cur_frames ws)) = inbox ws
  /\ closes (fst (send_chunks wav_data_c cur_frames ws)) = closes ws.
Proof.
  funelim (send_chunks wav_data_c cur_frames ws).
  - clear Heqcall.
    destruct (length _ <? 1280)%nat; [split; reflexivity |].
    destruct (ws_send _ ws) as [ws'|] eqn:Hsend; [| split; reflexivity].
    apply ws_send_keeps in Hsend as [Hin Hcl].
    match goal with IH : forall ws', _ /\ _ |- _ => destruct (IH ws') as [-> ->] end.
    auto.
  - split; reflexivity.
Qed.

Lemma process_keeps_closes (big : bool) (ws : websocket) (wav_data : list Z) :
  closes (snd (_process_audio_data big ws wav_data)) = closes ws.
Proof.
  unfold _process_audio_data.
  destruct (ws_send (text_frame start_data) ws) as [ws1|] eqn:H1; [| reflexivity].
  apply ws_send_keeps in H1 as [_ <-].
  destruct (pack_samples big wav_data) as [c|]; [| reflexivity].
  pose proof (send_chunks_keeps c 0 ws1) as [_ Hc].
  destruct (send_chunks c 0 ws1) as [ws2 [|]]; cbn [fst] in Hc; [| exact Hc].
  rewrite <- Hc.
  destruct (ws_send (binary_frame end_marker) ws2) as [ws3|] eqn:H3; [| reflexivity].
  apply ws_send_keeps in H3 as [_ <-].
  unfold _receive_results. destruct (receive_loop (inbox ws3)) as [txt rest].
  match goal with |- context [ws_send ?f ?w] =>
    destruct (ws_send f w) as [ws5|] eqn:H5 end; [| reflexivity].
  apply ws_send_keeps in H5 as [_ H5]. exact H5.
Qed.

(** X10. On a socket that takes every frame, for samples in the 16-bit
    range, [_process_audio_data] sends the start message, then the packed
    audio cut into whole chunks of 1280 bytes, then the end marker and,
    after reading the result, the close marker.  A trailing piece shorter
    than 1280 bytes is never sent: the audio frames together are the first
    [1280 * (n / 1280)] of the [n = 2 * len(wav_data)] bytes.  The text
    returned is the one the reply loop gives. *)
Theorem process_audio_sends_whole_chunks
    (big : bool) (ws : websocket) (wav_data : list Z) :
  takes_all ws ->
  Forall (fun x => (-32768 <= x <= 32767)%Z) wav_data ->
  exists wav_data_c,
    pack_samples big wav_data = Some wav_data_c
    /\ length wav_data_c = (2 * length wav_data)%nat
    /\ outbox (snd (_process_audio_data big ws wav_data))
       = outbox ws
         ++ text_frame start_data
         :: List.map binary_frame
              (full_chunks (length wav_data_c / sample_frames) wav_data_c)
         ++ [binary_frame end_marker; binary_frame close_marker]
    /\ Forall (fun chunk => length chunk = sample_frames)
         (full_chunks (length wav_data_c / sample_frames) wav_data_c)
    /\ concat (full_chunks (length wav_data_c / sample_frames) wav_data_c)
       = take (length wav_data_c / sample_frames * sample_frames) wav_data_c
    /\ fst (_process_audio_data big ws wav_data) = fst (receive_loop (inbox ws)).
Proof.
  intros Hall Hrange.
  destruct (pack_samples_in_range big wav_data Hrange) as [c Hc].
  exists c. split; [exact Hc |]. split; [eapply pack_samples_length, Hc |].
  assert (Hsf : (0 < sample_frames)%nat) by (unfold sample_frames; lia).
  split; [| split; [| split]].
  - unfold _process_audio_data.
    rewrite (ws_send_takes_all _ ws Hall), Hc.
    rewrite send_chunks_spec by reflexivity.
    rewrite Nat.sub_0_r, drop_0. cbn [outbox inbox closes].
    rewrite ws_send_takes_all by reflexivity.
    unfold _receive_results. cbn [outbox inbox closes capacity].
    destruct (receive_loop (inbox ws)) as [txt rest].
    rewrite ws_send_takes_all by reflexivity. cbn [snd outbox].
    rewrite <- !app_assoc. reflexivity.
  - apply full_chunks_whole. rewrite Nat.mul_comm. apply Nat.Div0.mul_div_le.
  - apply concat_full_chunks.
  - unfold _process_audio_data.
    rewrite (ws_send_takes_all _ ws Hall), Hc.
    rewrite send_chunks_spec by reflexivity.
    rewrite ws_send_takes_all by reflexivity.
    unfold _receive_results. cbn [outbox inbox closes capacity].
    destruct (receive_loop (inbox ws)) as [txt rest].
    rewrite ws_send_takes_all by reflexivity. reflexivity.
Qed.

(** The ways a recognition ends with the empty text. *)
Lemma recognition_empty (env : asr_env) :
  loaded env = None
  \/ connection env = None
  \/ (exists ws, connection env = Some ws /\ capacity ws = Some 0%nat)
  \/ (exists ws, connection env = Some ws /\ closes ws = false) ->
  recognize_audio_file env = JStr [].
Proof.
  unfold recognize_audio_file.
  intros [-> | [Hconn | [(ws & Hconn & Hcap) | (ws & Hconn & Hclose)]]];
    [reflexivity | | |]; destruct (loaded env) as [wav_data|]; try reflexivity;
    rewrite Hconn; try reflexivity.
  - unfold _process_audio_data, ws_send. rewrite Hcap.
    destruct (closes ws); reflexivity.
  - pose proof (process_keeps_closes (big_endian env) ws wav_data) as Hkeep.
    destruct (_process_audio_data (big_endian env) ws wav_data) as [txt ws'].
    cbn [snd] in Hkeep. rewrite Hkeep, Hclose. reflexivity.
Qed.

(** X11. [recognize_voice] answers the empty text, and raises nothing,
    when the audio cannot be loaded, when the connection cannot be opened,
    when the connection takes no frame at all, and also when everything
    went well but closing the socket raises: the text recognised is then
    dropped. *)
Theorem recognize_voice_fails_soft (env : asr_env) :
  loaded env = None
  \/ connection env = None
  \/ (exists ws, connection env = Some ws /\ capacity ws = Some 0%nat)
  \/ (exists ws, connection env = Some ws /\ closes ws = false) ->
  recognize_voice env = JStr [].
Proof. intros Hcase. unfold recognize_voice. apply recognition_empty, Hcase. Qed.

(** X12. [/upload_voice] never lets an [Exception] out; whenever it
    answers, it has either touched no file or saved the upload under the
    temporary path and then asked for the removal of that same path, on
    the 200, the 400 and the 500 answers alike; and it answers 200 only
    with a non-empty recognised text, which the body carries. *)
Theorem upload_voice_cleans_up
    (session : gmap pystr json) (audio : option (option pystr)) (svc : voice_services) :
  (forall e, snd (upload_voice session audio svc) = raises e -> is_Exception e = false)
  /\ (forall r,
        snd (upload_voice session audio svc) = returns r ->
        fst (upload_voice session audio svc) = []
        \/ exists temp_dir,
             gettempdir svc = returns temp_dir
             /\ fst (upload_voice session audio svc)
                = [fs_save (temp_audio_path svc temp_dir);
                   fs_remove (temp_audio_path svc temp_dir)])
  /\ (forall body,
        snd (upload_voice session audio svc) = returns (reply 200 body) ->
        py_truth (recognize_voice (asr svc)) = true
        /\ body = JObj [(lit "success", JBool true);
                        (lit "text", recognize_voice (asr svc))]).
Proof.
  unfold upload_voice, temp_audio_path.
  destruct (authenticated session); cbn [negb];
    [| repeat split; (discriminate || auto)].
  destruct audio as [filename|]; [| repeat split; (discriminate || auto)].
  destruct (bool_decide (filename = Some [])); [repeat split; (discriminate || auto) |].
  destruct (gettempdir svc) as [e0|temp_dir].
  { destruct (is_Exception e0) eqn:He0; cbn [fst snd];
      (split; [| split]); try discriminate; auto.
    intros e [= <-]. exact He0. }
  destruct (save_audio svc) as [e1|[]].
  { destruct (is_Exception e1) eqn:He1; cbn [fst snd];
      (split; [| split]); try discriminate; eauto.
    intros e [= <-]. exact He1. }
  cbn [fst snd].
  destruct (py_truth (recognize_voice (asr svc))) eqn:Htext;
    (split; [| split]); try discriminate; eauto.
  intros body [= <-]. auto.
Qed.

(** X13. An authenticated upload with a named audio part that was saved,
    but whose audio cannot be loaded or whose recognition connection
    fails, is answered with status 400 and the fixed failure text, not
    with a 500, after the temporary file was saved and its removal asked
    for. *)
Theorem upload_voice_unrecognised
    (session : gmap pystr json) (filename : option pystr) (svc : voice_services)
    (temp_dir : pystr) :
  authenticated session = true ->
  filename <> Some [] ->
  gettempdir svc = returns temp_dir ->
  save_audio svc = returns tt ->
  loaded (asr svc) = None
  \/ connection (asr svc) = None
  \/ (exists ws, connection (asr svc) = Some ws /\ capacity ws = Some 0%nat)
  \/ (exists ws, connection (asr svc) = Some ws /\ closes ws = false) ->
  upload_voice session (Some filename) svc
  = ([fs_save (temp_audio_path svc temp_dir); fs_remove (temp_audio_path svc temp_dir)],
     returns (reply 400 (error_body msg_recognition_failed))).
Proof.
  intros Hauth Hname Htmp Hsave Hasr.
  unfold upload_voice. rewrite Hauth. cbn [negb].
  rewrite bool_decide_eq_false_2 by exact Hname.
  unfold recognize_voice. rewrite Htmp, Hsave, (recognition_empty _ Hasr). reflexivity.
Qed.

End RecognitionFacts.

(** ** The image description service, all paths *)

Lemma b64encode_length_bounded (n : nat) (b : list N) :
  (length b <= n)%nat -> length (b64encode b) = (4 * ((length b + 2) / 3))%nat.
Proof.
  revert b. induction n as [|n IH]; intros b Hb.
  - destruct b; [reflexivity | cbn in Hb; lia].
  - destruct b as [|x [|y [|z rest]]]; try reflexivity.
    cbn [b64encode length]. rewrite IH by (cbn [length] in Hb; lia).
    replace (S (S (S (length rest))) + 2)%nat with ((length rest + 2) + 1 * 3)%nat by lia.
    rewrite Nat.div_add by lia. lia.
Qed.

(** X14. The text [encode_image_to_base64] returns has four characters
    for every three bytes of the file, rounded up, and is empty exactly
    for an empty file; so for an existing but empty image, as for one
    that cannot be read, both description calls report an encoding
    failure without sending any request. *)
Theorem empty_image_is_encoding_failure `{Interpreter} (b : list N) :
  length (b64encode b) = (4 * ((length b + 2) / 3))%nat
  /\ (b64encode b = [] <-> b = [])
  /\ (forall path reply file,
        file = None \/ file = Some [] ->
        describe_medical_image path (vision_of_file true file reply)
        = returns (false, JStr (if truthy path then msg_encoding_failed
                                else msg_no_segmented_image))
        /\ describe_single_image (vision_of_file true file reply)
           = returns (false, JStr msg_image_encoding_failed)).
Proof.
  split; [apply (b64encode_length_bounded (length b)); lia |]. split.
  - split; [| intros ->; reflexivity].
    destruct b as [|x [|y [|z rest]]]; [reflexivity | discriminate ..].
  - intros path reply file [-> | ->]; destruct path; split; reflexivity.
Qed.

Section DescriptionFacts.
Context `{Interpreter}.

(** X15. [describe_medical_image] reports success only for an existing,
    non-empty path whose image was encoded to a non-empty text and whose
    request came back with status 200 and a body from which a description
    was extracted; a reply with any other status is reported as a
    failure. *)
Theorem describe_success_needs_200 (path : pystr) (env : vision_env) :
  (forall description,
     describe_medical_image path env = returns (true, description) ->
     truthy path = true
     /\ path_exists env = true
     /\ (exists b64, base64_image env = Some b64 /\ truthy b64 = true)
     /\ exists response result,
          post env = returns response
          /\ status_code response = 200%Z
          /\ json_body response = returns result
          /\ extract_description result = returns (true, description))
  /\ (forall response,
        post env = returns response ->
        status_code response <> 200%Z ->
        exists msg, describe_medical_image path env = returns (false, JStr msg)).
Proof.
  split.
  - intros description. unfold describe_medical_image.
    destruct (describe_body path env) as [e|r] eqn:Hbody;
      [destruct (cls e); discriminate |].
    intros [= ->]. unfold describe_body in Hbody.
    destruct (truthy path); [| discriminate].
    destruct (path_exists env); [| discriminate]. cbn [negb orb] in Hbody.
    destruct (base64_image env) as [[|ch b64]|]; [discriminate | | discriminate].
    destruct (post env) as [e|response]; [discriminate |].
    cbn [mbind outcome_bind] in Hbody.
    destruct (Z.eqb_spec (status_code response) 200) as [Hst|_]; [| discriminate].
    destruct (json_body response) as [e|result] eqn:Hjson; [discriminate |].
    cbn [mbind outcome_bind] in Hbody.
    repeat split; eauto 10.
  - intros response Hpost Hst. unfold describe_medical_image, describe_body.
    destruct (negb (truthy path) || negb (path_exists env)); [eauto |].
    destruct (base64_image env) as [[|ch b64]|]; [eauto | | eauto].
    rewrite Hpost. cbn [mbind outcome_bind].
    rewrite (proj2 (Z.eqb_neq _ _) Hst). eauto.
Qed.

(** X16. For an existing, non-empty path, [describe_single_image] and
    [describe_medical_image] agree on every success and on every
    exception they let out: one returns a description exactly when the
    other returns the same one; they differ only in the texts of the
    failures they report. *)
Theorem describe_single_agrees (path : pystr) (env : vision_env) :
  truthy path = true ->
  path_exists env = true ->
  (forall description,
     describe_medical_image path env = returns (true, description)
     <-> describe_single_image env = returns (true, description))
  /\ (forall e, describe_medical_image path env = raises e
                <-> describe_single_image env = raises e)
  /\ ((exists msg, describe_medical_image path env = returns (false, msg))
      <-> (exists msg, describe_single_image env = returns (false, msg))).
Proof.
  intros Hpath Hexists.
  unfold describe_medical_image, describe_single_image, describe_body,
    describe_single_body.
  rewrite Hpath, Hexists. cbn [negb orb].
  destruct (base64_image env) as [[|ch b64]|];
    [repeat split; intros; try discriminate; eauto; firstorder discriminate | |
     repeat split; intros; try discriminate; eauto; firstorder discriminate].
  match goal with |- context [match ?body with raises _ => _ | returns _ => _ end] =>
    destruct body as [e|[[|] d]] end.
  - unfold is_Exception. destruct e as [[| | |] msg]; cbn [cls];
      (split; [| split]); try (split; intros; discriminate);
      try (split; intros; assumption); try (split; eauto);
      try (split; intros [? ?]; discriminate).
  - split; [| split]; try (split; intros; assumption);
      split; intros [? ?]; discriminate.
  - split; [| split]; try (split; intros; discriminate);
      split; eauto.
Qed.

(** X17. From a parsed reply that is an object, the description is taken
    from [data.content] when both are there, whatever else the reply
    holds; without [data], from the first entry of a non-empty [choices]
    list, where a first entry without [message], or a message without
    [content], gives a success with the empty text; without [data] and
    without a non-empty [choices], the reply is reported as ill-formed. *)
Theorem extract_description_paths (kv : list (pystr * json)) :
  (forall dkv c,
     assoc (lit "data") kv = Some (JObj dkv) ->
     assoc (lit "content") dkv = Some c ->
     extract_description (JObj kv) = returns (true, c))
  /\ (forall first more,
        assoc (lit "data") kv = None ->
        assoc (lit "choices") kv = Some (JArr (JObj first :: more)) ->
        (assoc (lit "message") first = None ->
         extract_description (JObj kv) = returns (true, JStr []))
        /\ (forall m,
              assoc (lit "message") first = Some (JObj m) ->
              extract_description (JObj kv)
              = returns (true, default (JStr []) (assoc (lit "content") m))))
  /\ (assoc (lit "data") kv = None ->
      assoc (lit "choices") kv = None \/ assoc (lit "choices") kv = Some (JArr []) ->
      extract_description (JObj kv) = returns (false, JStr msg_bad_format)).
Proof.
  unfold extract_description, py_in, py_getitem, py_len, py_first, py_get.
  split; [| split].
  - intros dkv c Hdata Hcontent. cbn [mbind outcome_bind].
    rewrite Hdata. cbn [mbind outcome_bind is_Some].
    rewrite (bool_decide_eq_true_2 (is_Some (Some (JObj dkv)))) by eauto.
    cbn [mbind outcome_bind]. rewrite Hcontent.
    rewrite (bool_decide_eq_true_2 (is_Some (Some c))) by eauto.
    reflexivity.
  - intros first more Hdata Hchoices. cbn [mbind outcome_bind].
    rewrite Hdata, Hchoices.
    rewrite (bool_decide_eq_false_2 (is_Some None)) by (intros [? ?]; discriminate).
    cbn [mbind outcome_bind].
    rewrite (bool_decide_eq_true_2 (is_Some (Some _))) by eauto.
    cbn [mbind outcome_bind length].
    rewrite (bool_decide_eq_true_2 (0 < S (length more))%nat) by lia.
    cbn [mbind outcome_bind]. split.
    + intros ->. reflexivity.
    + intros m ->. reflexivity.
  - intros Hdata Hchoices. cbn [mbind outcome_bind]. rewrite Hdata.
    rewrite (bool_decide_eq_false_2 (is_Some None)) by (intros [? ?]; discriminate).
    cbn [mbind outcome_bind].
    destruct Hchoices as [-> | ->].
    + rewrite (bool_decide_eq_false_2 (is_Some None)) by (intros [? ?]; discriminate).
      reflexivity.
    + rewrite (bool_decide_eq_true_2 (is_Some (Some _))) by eauto.
      cbn [mbind outcome_bind length].
      rewrite (bool_decide_eq_false_2 (0 < 0)%nat) by lia. reflexivity.
Qed.

End DescriptionFacts.

(** ** The polling loop, continued *)

Section StreamFacts.
Context `{Ansi2HTMLConverter} `{JsonEncoder}.

Lemma exec_same_flags (w w' : world) (e : effect) :
  finish_event w = finish_event w' -> q_a_console w = q_a_console w' ->
  finish_event (exec w e) = finish_event (exec w' e)
  /\ q_a_console (exec w e) = q_a_console (exec w' e).
Proof. intros Hf Hc. destruct e; cbn; auto. Qed.

(** A turn of the generator leaves the shared state alone or takes the
    oldest message off the queue. *)
Lemma gen_step_world (w : world) (d : dispatcher) :
  fst (gen_step w d) = w
  \/ exists msg q', queue (sse w) = msg :: q' /\ fst (gen_step w d) = pop w q'.
Proof.
  unfold gen_step. destruct (pc d) as [| |m|].
  - destruct (negb _ || negb _); left; reflexivity.
  - destruct (queue (sse w)) as [|msg q'] eqn:Hq; [left; reflexivity |].
    right. exists msg, q'. split; [reflexivity |].
    destruct (dumps msg); reflexivity.
  - destruct (is_finished m); left; reflexivity.
  - left. reflexivity.
Qed.

(** X18. Neither the generator nor a client that goes away holds the
    worker back or changes what it does: after any schedule that gave the
    worker [n] turns, the worker has performed exactly its first [n]
    effects, and the signal, the console binding and the capture's buffer
    are those of the worker running alone; the queue holds a suffix of
    what the worker has put. *)
Theorem worker_unaffected_by_stream
    (w0 : world) (es : list effect) (d0 : dispatcher) (cs : list choice) :
  let s := schedule cs (System w0 es d0) in
  let alone := run (take (worker_turns cs) es) w0 in
  worker s = drop (worker_turns cs) es
  /\ finish_event (shared s) = finish_event alone
  /\ q_a_console (shared s) = q_a_console alone
  /\ buffer (sse (shared s)) = buffer (sse alone)
  /\ queue (sse (shared s)) `suffix_of` queue (sse alone).
Proof.
  cbn zeta.
  enough (Hinv : worker (schedule cs (System w0 es d0)) = drop (worker_turns cs) es
                 /\ finish_event (shared (schedule cs (System w0 es d0)))
                    = finish_event (run (take (worker_turns cs) es) w0)
                 /\ q_a_console (shared (schedule cs (System w0 es d0)))
                    = q_a_console (run (take (worker_turns cs) es) w0)
                 /\ exists p, ahead p (run (take (worker_turns cs) es) w0)
                                (shared (schedule cs (System w0 es d0)))).
  { destruct Hinv as (Hw & Hf & Hc & p & Hq & Hb).
    split; [exact Hw |]. split; [exact Hf |]. split; [exact Hc |].
    split; [symmetry; exact Hb | exists p; exact Hq]. }
  induction cs as [|c cs IH] using rev_ind.
  - cbn. repeat split. exists []. split; reflexivity.
  - destruct IH as (Hw & Hf & Hc & p & Hahead).
    rewrite schedule_app. cbn [schedule fold_left].
    unfold worker_turns in *. rewrite List.filter_app, length_app.
    set (s := schedule cs (System w0 es d0)) in *.
    set (n := length (List.filter _ cs)) in *.
    destruct c; cbn [List.filter length step].
    + (* the worker takes a turn *)
      replace (n + 1)%nat with (S n) by lia.
      destruct (worker s) as [|e rest] eqn:Hworker.
      * assert (Hlen : (length es <= n)%nat).
        { apply (f_equal length) in Hw. rewrite length_drop in Hw. cbn in Hw. lia. }
        fold s. rewrite Hworker.
        rewrite (drop_ge es (S n)) by lia.
        rewrite (take_ge es (S n)) by lia.
        rewrite (take_ge es n) in Hf, Hc, Hahead by lia.
        repeat split; try assumption. exists p. exact Hahead.
      * assert (Hn : es !! n = Some e).
        { rewrite <- (Nat.add_0_r n), <- lookup_drop, <- Hw. reflexivity. }
        rewrite (take_S_r es n e Hn). unfold run in *. rewrite fold_left_app.
        cbn [fold_left shared worker].
        destruct (exec_same_flags (shared s) (fold_left exec (take n es) w0) e Hf Hc)
          as [Hf' Hc'].
        split; [| split; [exact Hf' | split; [exact Hc' |]]].
        -- rewrite (drop_S es e n Hn) in Hw. congruence.
        -- exists p. apply exec_ahead, Hahead.
    + (* the generator takes a turn *)
      rewrite Nat.add_0_r.
      pose proof (gen_step_world (shared s) (gen s)) as Hstep.
      destruct (gen_step (shared s) (gen s)) as [w' d'] eqn:Hgen. cbn [fst] in Hstep.
      cbn [shared worker].
      destruct Hstep as [-> | (msg & q' & Hq & ->)].
      * repeat split; try assumption. exists p. exact Hahead.
      * repeat split; try assumption. exists (p ++ [msg]).
        destruct Hahead as [Hqa Hba]. split; cbn.
        -- rewrite Hqa, Hq, <- app_assoc. reflexivity.
        -- exact Hba.
    + (* the client goes away *)
      rewrite Nat.add_0_r.
      destruct (pc (gen s)); cbn [shared worker];
        (repeat split; try assumption; exists p; exact Hahead).
Qed.



End StreamFacts.

(** ** The capture and the worker, continued *)

Lemma no_terminator_no_index (b : pystr) : terminators b = 0%nat -> index NL b = None.
Proof.
  unfold terminators. induction b as [|c b IH]; [reflexivity |].
  cbn [List.filter index]. destruct (c =? NL); [discriminate |].
  intros Hb. rewrite (IH Hb). reflexivity.
Qed.

Section CaptureMore.
Context `{Ansi2HTMLConverter}.

Lemma write_write (s t : pystr) (w : SseLogStreamWrapper) :
  fst (write t (fst (write s w))) = fst (write (s ++ t) w).
Proof.
  unfold write. cbn [fst]. rewrite !drain_spec. cbn [queue buffer].
  rewrite (app_assoc (buffer w) s t).
  rewrite (complete_lines_app (buffer w ++ s) t), (remainder_app (buffer w ++ s) t).
  rewrite List.filter_app, List.map_app, app_assoc. reflexivity.
Qed.

(** X20. How the engine's output is cut into [write] calls does not
    matter: on a capture whose buffer holds no line terminator (a fresh
    one, or any one left by earlier calls), a sequence of writes leaves
    the same messages and the same buffer as a single write of the
    concatenated text. *)
Theorem writes_split_independent (ss : list pystr) (w : SseLogStreamWrapper) :
  terminators (buffer w) = 0%nat ->
  writes ss w = fst (write (concat ss) w)
  /\ terminators (buffer (writes ss w)) = 0%nat.
Proof.
  intros Hw.
  assert (Hone : writes ss w = fst (write (concat ss) w)).
  { revert w Hw. induction ss as [|s ss IH] using rev_ind; intros w Hw.
    - cbn [writes fold_left concat]. unfold write. cbn [fst].
      rewrite drain_spec, app_nil_r. cbn [queue buffer].
      unfold complete_lines, remainder.
      rewrite (split_lines_no_newline _ (no_terminator_no_index _ Hw)).
      cbn. rewrite app_nil_r. destruct w; reflexivity.
    - rewrite writes_snoc, (IH w Hw), write_write, concat_app.
      cbn [concat]. rewrite app_nil_r. reflexivity. }
  split; [exact Hone |].
  rewrite Hone. unfold write. cbn [fst]. rewrite drain_spec. cbn [buffer].
  apply remainder_no_terminator.
Qed.

Lemma exec_same_capture (w w' : world) (e : effect) :
  sse w = sse w' -> sse (exec w e) = sse (exec w' e).
Proof. intros Hs. destruct e; cbn; rewrite ?Hs; reflexivity. Qed.

Lemma run_same_capture (es : list effect) (w w' : world) :
  sse w = sse w' -> sse (run es w) = sse (run es w').
Proof.
  revert w w'. induction es as [|e es IH]; intros w w' Hs; [exact Hs |].
  apply (IH (exec w e) (exec w' e)), exec_same_capture, Hs.
Qed.

Lemma finally_capture (con : option Console) (w : world) :
  sse (run (finally_block con) w) = put finished_msg (sse w).
Proof.
  unfold finally_block.
  destruct (saved_file con) as [|f]; [| destruct con]; reflexivity.
Qed.

(** X21. The messages of a job and the text left in its capture depend on
    the engine alone, not on what the console was bound to before the
    job: with a console present, two runs of the worker on the same engine
    behaviour end with the same queue and buffer, and both with the signal
    set. *)
Theorem rag_worker_events_ignore_console (c c' : Console) (eng : engine) :
  sse (run (fst (rag_worker (Some c) eng)) (start (Some c)))
  = sse (run (fst (rag_worker (Some c') eng)) (start (Some c')))
  /\ finish_event (run (fst (rag_worker (Some c) eng)) (start (Some c))) = true.
Proof.
  split.
  - unfold rag_worker.
    destruct (result eng) as [e|a]; [destruct (is_Exception e) |]; cbn [fst];
      rewrite ?app_assoc, !run_app, !finally_capture; f_equal;
      apply run_same_capture; reflexivity.
  - destruct (rag_worker_ends (Some c) eng) as [pre ->].
    change (pre ++ [finish_set; q_put finished_msg])
      with (pre ++ [finish_set] ++ [q_put finished_msg]).
    rewrite !run_app. reflexivity.
Qed.


End CaptureMore.

(** ** Concrete runs *)

#[local] Existing Instance plain_converter.
#[local] Existing Instance plain_encoder.
#[local] Existing Instance plain_interpreter.

Example write_two_lines :
  writes [lit "ab" ++ [NL; 32; NL] ++ lit "c"; lit "d"] (new_wrapper [])
  = {| queue := [log_item (lit "ab")]; buffer := lit "cd" |}.
Proof. vm_compute. reflexivity. Qed.

Example job_answers :
  queue (sse (run (fst (rag_worker console_bound engine_answers)) (start console_bound)))
  = [log_item (lit "step 1"); log_item (lit "step 2");
     Msg answer (Some (lit "X is ...")); finished_msg].
Proof. vm_compute. reflexivity. Qed.

(** C3, on a concrete job. *)
Lemma rag_worker_success_witness :
  result engine_answers = returns (lit "X is ...")
  /\ exists logs,
       Forall is_log logs
       /\ queue (sse (run (fst (rag_worker console_bound engine_answers))
                        (start console_bound)))
          = logs ++ [Msg answer (Some (lit "X is ...")); finished_msg].
Proof.
  split; [reflexivity |].
  exact (proj2 (proj2 (rag_worker_success {| file := Some (File (stream 0)) |}
                         engine_answers (lit "X is ...") eq_refl))).
Defined.

(** C4, on a concrete job. *)
Lemma rag_worker_failure_witness :
  snd (rag_worker console_bound engine_fails) = None
  /\ exists logs,
       Forall is_log logs
       /\ queue (sse (run (fst (rag_worker console_bound engine_fails))
                        (start console_bound)))
          = logs ++ [Msg error (Some (lit "An error occurred: " ++ lit "db unreachable"));
                     finished_msg]
       /\ Forall (fun m => type m <> answer)
            (queue (sse (run (fst (rag_worker console_bound engine_fails))
                           (start console_bound)))).
Proof.
  exact (rag_worker_failure {| file := Some (File (stream 0)) |} engine_fails
           (Exn OtherException (lit "db unreachable")) eq_refl eq_refl).
Defined.

(** C4 as stated fails: an exception that is not an [Exception] leaves the
    worker, and no [error] message is put. *)
Lemma system_exit_propagates :
  snd (rag_worker console_bound engine_exits) = Some (Exn BaseOnly (lit "exit"))
  /\ queue (sse (run (fst (rag_worker console_bound engine_exits)) (start console_bound)))
     = [finished_msg].
Proof. split; reflexivity. Qed.

(** C5, on a concrete job that fails. *)
Lemma rag_worker_restores_file_witness :
  q_a_console (run (fst (rag_worker console_bound engine_fails)) (start console_bound))
  = console_bound.
Proof.
  apply (rag_worker_restores_file console_bound engine_fails).
  exists (stream 0). reflexivity.
Defined.

(** C6 as stated fails: a blank line is consumed without a message. *)
Lemma blank_line_not_emitted :
  length (queue (writes [[NL]] (new_wrapper []))) = 0%nat
  /\ buffer (writes [[NL]] (new_wrapper [])) = []
  /\ terminators (concat [[NL]]) = 1%nat
  /\ length (queue (writes [[NL]] (new_wrapper []))) <> terminators (concat [[NL]]).
Proof. vm_compute. repeat split; discriminate. Qed.

(** C2: the stream of a job that answers can end without [finished]. *)
Lemma stream_closes_without_finished :
  pc (gen (schedule race (generate_response_stream console_bound engine_silent))) = closed
  /\ sent (gen (schedule race (generate_response_stream console_bound engine_silent)))
     = [Msg answer (Some (lit "X is ..."))]
  /\ worker (schedule race (generate_response_stream console_bound engine_silent)) = []
  /\ queue (sse (shared (schedule race
              (generate_response_stream console_bound engine_silent))))
     = [finished_msg].
Proof. vm_compute. repeat split; reflexivity. Qed.

(** C8, on a job that prints two lines and answers: once the worker is
    done, the generator left to run forwards the four messages, one frame
    each, in the order the worker put them, empties the queue and closes. *)
Lemma stream_preserves_order_witness :
  let s := schedule (repeat run_worker 8)
             (System (start console_bound) (fst (rag_worker console_bound engine_answers))
                (Dispatcher at_while [] [])) in
  let s' := schedule (repeat run_generator 12) s in
  pc (gen s') = closed
  /\ sent (gen s')
     = [log_item (lit "step 1"); log_item (lit "step 2");
        Msg answer (Some (lit "X is ...")); finished_msg]
  /\ wire (gen s')
     = [frame (lit "<div class='log-item'>step 1</div>");
        frame (lit "<div class='log-item'>step 2</div>");
        frame (lit "X is ..."); frame []]
  /\ queue (sse (shared s')) = []
  /\ sent (gen s')
     = queue (sse (run (fst (rag_worker console_bound engine_answers))
                     (start console_bound))).
Proof.
  intros s s'.
  assert (Hpc : pc (gen s) = at_while) by (vm_compute; reflexivity).
  assert (Hqueue : queue (sse (shared s))
                   = [log_item (lit "step 1"); log_item (lit "step 2");
                      Msg answer (Some (lit "X is ..."))] ++ [finished_msg])
    by (vm_compute; reflexivity).
  assert (Hlogs : none_finished [log_item (lit "step 1"); log_item (lit "step 2");
                                 Msg answer (Some (lit "X is ..."))])
    by (repeat constructor).
  assert (Hdumps : forall m,
             m ∈ [log_item (lit "step 1"); log_item (lit "step 2");
                  Msg answer (Some (lit "X is ..."))] ++ [finished_msg] ->
             is_Some (dumps m))
    by (intros m _; eexists; reflexivity).
  assert (Hdone : worker s = []) by (vm_compute; reflexivity).
  destruct (proj2 (proj2 (proj2 (proj2 (proj2 (proj2
              (stream_preserves_order (start console_bound)
                 (fst (rag_worker console_bound engine_answers))
                 (repeat run_worker 8)))))))
              [log_item (lit "step 1"); log_item (lit "step 2");
               Msg answer (Some (lit "X is ..."))]
              finished_msg Hpc Hqueue Hlogs eq_refl Hdumps)
    as (Hclosed & Hsent & Hwire & Hempty & Hall).
  split; [exact Hclosed |].
  split; [exact Hsent |].
  split; [exact Hwire |].
  split; [exact Hempty | exact (Hall Hdone)].
Defined.

(** X23, on a request without a question and on one with a question only. *)
Lemma ask_question_gate_witness :
  (exists r,
     ask_question session_ok (JObj []) = returns r
     /\ client_error r = true /\ starts_worker r = false)
  /\ ask_question session_ok body_question
     = returns (event_stream
                  (Job (JStr (lit "What is X?")) (JBool true) (JStr (lit "Deeper")))).
Proof.
  split.
  - destruct (proj1 (ask_question_gate session_ok []) (or_intror (or_introl eq_refl)))
      as (r & Hask & _ & Hclient & Hworker).
    exists r. split; [exact Hask |]. split; [exact Hclient | exact Hworker].
  - destruct (proj2 (ask_question_gate session_ok
                       [(lit "question", JStr (lit "What is X?"))])
                (JStr (lit "What is X?")) eq_refl eq_refl eq_refl)
      as (multi_hop & budget & Hask & _ & _ & Hmulti & Hbudget).
    unfold body_question. rewrite Hask, (Hmulti eq_refl), (Hbudget eq_refl).
    reflexivity.
Defined.

(** C9, on an authenticated request whose body is the empty list. *)
Lemma ask_question_non_object_body_witness :
  authenticated session_ok = true
  /\ answered_status (ask_question session_ok (JArr [])) = 500%Z
  /\ forall r, ask_question session_ok (JArr []) <> returns r.
Proof.
  split; [reflexivity |].
  assert (Hshape : forall kv, JArr [] <> JObj kv) by (intros kv; discriminate).
  exact (proj2 (ask_question_non_object_body session_ok (JArr []) eq_refl Hshape)).
Defined.

(** C10, on an upload whose description request times out. *)
Lemma upload_image_description_fallback_witness :
  upload_image session_ok (Some (Some (lit "scan.PNG"))) services_description_times_out
  = returns (reply 200 (JObj [
      (lit "success", JBool true);
      (lit "original_image", JStr (lit "/uploads/" ++ basename (lit "static/uploads/u.png")));
      (lit "segmented_image",
       JStr (lit "/segmented/" ++ basename (lit "static/segmented/s.png")));
      (lit "segmentation_info", JNull);
      (lit "description", JStr msg_fallback)])).
Proof.
  apply (upload_image_description_fallback session_ok (Some (lit "scan.PNG"))
           services_description_times_out (Some (lit "static/uploads/u.png"))
           (lit "static/segmented/s.png") (lit "static/uploads/u.png") JNull
           (JStr msg_timeout)).
  - reflexivity.
  - discriminate.
  - vm_compute. reflexivity.
  - reflexivity.
  - reflexivity.
  - reflexivity.
  - reflexivity.
  - reflexivity.
Defined.

(** ** Concrete runs of the further properties *)

(** X1, on a form that names the server only. *)
Lemma login_success_authenticates_witness :
  exists session',
    login ∅ POST form_uri neo4j_up ∅ = returns (session', redirect (lit "index"))
    /\ session' !! lit "neo4j_config"
       = Some (config (lit "bolt://db:7687") (lit "neo4j") (lit "123456789"))
    /\ authenticated session' = true.
Proof.
  destruct (login_success_authenticates ∅ form_uri neo4j_up ∅ eq_refl)
    as (session' & Hlogin & Hcfg & Hauth & _).
  exists session'. split; [exact Hlogin |]. split; [exact Hcfg | exact Hauth].
Defined.

(** X2, on a session that was authenticated. *)
Lemma login_failure_logs_out_witness :
  authenticated session_ok = true
  /\ exists session' page,
       login ∅ POST form_uri neo4j_down session_ok = returns (session', page)
       /\ authenticated session' = false.
Proof.
  split; [reflexivity |].
  destruct (login_failure_logs_out ∅ form_uri neo4j_down session_ok
              (Exn OtherException (lit "connection refused")) eq_refl eq_refl)
    as (session' & Hlogin & _ & Hauth & _).
  exists session'. eexists. split; [exact Hlogin | exact Hauth].
Defined.

(** X4, on a visit that starts with an empty session. *)
Lemma sessions_stay_coherent_witness :
  exists session',
    serve_all ∅ neo4j_up visit ∅ = returns session' /\ coherent session'.
Proof.
  eexists. split; [reflexivity |].
  apply (sessions_stay_coherent ∅ neo4j_up visit ∅).
  - intros [c Hc]. rewrite lookup_empty in Hc. discriminate.
  - reflexivity.
Defined.

(** X5, on a name with two dots and capital letters. *)
Lemma allowed_file_last_extension_witness :
  allowed_file (Some (lit "scan.v2" ++ DOT :: lit "PNG")) = true
  /\ allowed_file (Some (lit "scan.png" ++ DOT :: lit "exe")) = false.
Proof.
  split.
  - rewrite (allowed_file_last_extension (lit "scan.v2") (lit "PNG"));
      [vm_compute; reflexivity |].
    intros Hin. vm_compute in Hin. repeat (apply elem_of_cons in Hin as [Hin|Hin];
      [discriminate |]). apply elem_of_nil in Hin. exact Hin.
  - rewrite (allowed_file_last_extension (lit "scan.png") (lit "exe"));
      [vm_compute; reflexivity |].
    intros Hin. vm_compute in Hin. repeat (apply elem_of_cons in Hin as [Hin|Hin];
      [discriminate |]). apply elem_of_nil in Hin. exact Hin.
Defined.

(** X6, on an upload without an [image] part. *)
Lemma rejected_upload_ignores_services_witness :
  upload_image session_ok None services_description_times_out
  = upload_image session_ok None services_save_fails.
Proof.
  apply (rejected_upload_ignores_services session_ok None
           services_description_times_out services_save_fails).
  right. left. reflexivity.
Defined.

(** X7, on an upload that is answered with 200. *)
Lemma upload_image_success_only_after_segmentation_witness :
  authenticated session_ok = true
  /\ exists segmented original seg_info,
       segment_image services_description_times_out
       = returns (Some segmented, original, seg_info)
       /\ truthy segmented = true.
Proof.
  assert (Hrun : exists body,
             upload_image session_ok (Some (Some (lit "scan.PNG")))
               services_description_times_out = returns (reply 200 body))
    by (eexists; reflexivity).
  destruct Hrun as [body Hrun].
  destruct (proj2 (upload_image_success_only_after_segmentation session_ok
                     (Some (Some (lit "scan.PNG"))) services_description_times_out)
              body Hrun)
    as (Hauth & filename & uploaded & segmented & original & seg_info & description
        & _ & _ & _ & _ & Hseg & Htruthy & _).
  split; [exact Hauth |]. exists segmented, original, seg_info.
  split; [exact Hseg | exact Htruthy].
Defined.

(** X8, on a save that fails. *)
Lemma upload_image_service_errors_witness :
  upload_image session_ok (Some (Some (lit "scan.png"))) services_save_fails
  = returns (reply 500 (error_body (lit "Image segmentation error: " ++ lit "disk full"))).
Proof.
  assert (Hname : Some (lit "scan.png") <> Some []) by discriminate.
  apply (proj1 (upload_image_service_errors session_ok (Some (lit "scan.png"))
                  services_save_fails eq_refl Hname eq_refl)
           (Exn OtherException (lit "disk full")) eq_refl).
  left. reflexivity.
Defined.

(** X9, on a reply without an [action]. *)
Lemma receive_stops_at_first_final_witness :
  receive_loop ([Some (asr_result false (JStr (lit "hel")))]
                  ++ Some (JObj [(lit "type", JStr (lit "asr"))])
                  :: [Some (asr_result true (JStr (lit "hello")))])
  = (JStr [], [Some (asr_result true (JStr (lit "hello")))]).
Proof.
  apply (proj1 (proj2 (proj2 (proj2
           (receive_stops_at_first_final [JStr (lit "hel")]
              [Some (asr_result true (JStr (lit "hello")))]))))).
  reflexivity.
Defined.

(** X10, on three samples: less than a chunk, so no audio frame is sent. *)
Lemma process_audio_sends_whole_chunks_witness :
  exists wav_data_c,
    pack_samples false [1; -2; 3]%Z = Some wav_data_c
    /\ length wav_data_c = 6%nat
    /\ fst (_process_audio_data false ws_hello [1; -2; 3]%Z)
       = fst (receive_loop (inbox ws_hello)).
Proof.
  assert (Hrange : Forall (fun x => (-32768 <= x <= 32767)%Z) [1; -2; 3]%Z)
    by (repeat constructor; lia).
  destruct (process_audio_sends_whole_chunks false ws_hello [1; -2; 3]%Z
              eq_refl Hrange)
    as (c & Hc & Hlen & _ & _ & _ & Htext).
  exists c. split; [exact Hc |]. split; [exact Hlen | exact Htext].
Defined.

(** X11, on a socket whose [close()] raises after the text was read. *)
Lemma recognize_voice_fails_soft_witness :
  fst (_process_audio_data false ws_close_fails [1; -2; 3]%Z) = JStr (lit "hello")
  /\ recognize_voice asr_close_fails = JStr [].
Proof.
  split; [reflexivity |].
  apply (recognize_voice_fails_soft asr_close_fails).
  right. right. right. exists ws_close_fails. split; reflexivity.
Defined.

(** X12, on an upload whose text is recognised. *)
Lemma upload_voice_cleans_up_witness :
  py_truth (recognize_voice (asr voice_hello)) = true
  /\ JObj [(lit "success", JBool true); (lit "text", JStr (lit "hello"))]
     = JObj [(lit "success", JBool true); (lit "text", recognize_voice (asr voice_hello))].
Proof.
  apply (proj2 (proj2 (upload_voice_cleans_up session_ok (Some (Some (lit "a.wav")))
                         voice_hello))).
  reflexivity.
Defined.

(** X13, on an upload whose socket fails to close. *)
Lemma upload_voice_unrecognised_witness :
  upload_voice session_ok (Some (Some (lit "a.wav"))) voice_close_fails
  = ([fs_save (temp_audio_path voice_close_fails (lit "/tmp"));
      fs_remove (temp_audio_path voice_close_fails (lit "/tmp"))],
     returns (reply 400 (error_body msg_recognition_failed))).
Proof.
  assert (Hname : Some (lit "a.wav") <> Some []) by discriminate.
  apply (upload_voice_unrecognised session_ok (Some (lit "a.wav")) voice_close_fails
           (lit "/tmp") eq_refl Hname eq_refl eq_refl).
  right. right. right. exists ws_close_fails. split; reflexivity.
Defined.

Example b64encode_known :
  b64encode (lit "Man") = lit "TWFu"
  /\ b64encode (lit "Ma") = lit "TWE="
  /\ b64encode (lit "M") = lit "TQ==".
Proof. vm_compute. repeat split; reflexivity. Qed.

Example pack_samples_known :
  pack_samples false [1; -2; 3]%Z = Some [1; 0; 254; 255; 3; 0]
  /\ pack_samples true [1; -2; 3]%Z = Some [0; 1; 255; 254; 0; 3]
  /\ pack_samples false [40000]%Z = None.
Proof. vm_compute. repeat split; reflexivity. Qed.

(** X14, on an empty image file. *)
Lemma empty_image_is_encoding_failure_witness :
  describe_medical_image (lit "static/segmented/s.png")
    (vision_of_file true (Some []) (raises (Exn Timeout [])))
  = returns (false, JStr msg_encoding_failed).
Proof.
  apply (proj2 (proj2 (empty_image_is_encoding_failure []))
           (lit "static/segmented/s.png") (raises (Exn Timeout [])) (Some [])).
  right. reflexivity.
Defined.

(** X15, on a reply whose first choice has no message. *)
Lemma describe_success_needs_200_witness :
  truthy (lit "static/segmented/s.png") = true
  /\ path_exists vision_empty_choice = true
  /\ exists response,
       post vision_empty_choice = returns response /\ status_code response = 200%Z.
Proof.
  destruct (proj1 (describe_success_needs_200 (lit "static/segmented/s.png")
                     vision_empty_choice) (JStr []) eq_refl)
    as (Hpath & Hexists & _ & response & result & Hpost & Hstatus & _).
  split; [exact Hpath |]. split; [exact Hexists |].
  exists response. split; [exact Hpost | exact Hstatus].
Defined.

(** X16, on the same reply. *)
Lemma describe_single_agrees_witness :
  describe_single_image vision_empty_choice = returns (true, JStr []).
Proof.
  apply (proj1 (describe_single_agrees (lit "static/segmented/s.png")
                  vision_empty_choice eq_refl eq_refl)).
  reflexivity.
Defined.

(** X17, on the same reply. *)
Lemma extract_description_paths_witness :
  extract_description (JObj reply_empty_choice) = returns (true, JStr []).
Proof.
  apply (proj1 (proj2 (extract_description_paths reply_empty_choice))
           [(lit "index", JNum 0)] [] eq_refl eq_refl).
  reflexivity.
Defined.


(** X20, on a line written in three pieces. *)
Lemma writes_split_independent_witness :
  writes [lit "st"; lit "ep 1"; [NL]] (new_wrapper [])
  = fst (write (concat [lit "st"; lit "ep 1"; [NL]]) (new_wrapper [])).
Proof.
  apply (writes_split_independent [lit "st"; lit "ep 1"; [NL]] (new_wrapper [])).
  reflexivity.
Defined.

